(** * ergo: configuration loading and hostname validation

    A shallow embedding of [irc/net.go] and [irc/config.go] together
    with the parts of the Go standard library they call, and the
    properties of the specification proved over it.

    Conventions of the embedding:
    - a Go [string] is an immutable sequence of bytes: [list ascii];
    - a Go [rune] and a Go [int] are integers: [Z];
    - a Go [error] is represented by its message, [nil] by [None];
    - a Go pointer that may be [nil] is an [option];
    - a Go [map] is a [gmap]; the order in which [range] visits it is
      not fixed by the language, so every loop over a map is run on an
      arbitrary enumeration of its entries. *)

From Stdlib Require Import ZArith Lia List Ascii String.
From stdpp Require Import base list strings gmap.

Abbreviation gostring := (list ascii).

(** String literals of the source, as byte sequences. *)
Definition str (s : string) : gostring := list_ascii_of_string s.

(** Value of a byte, and Go's conversion [byte(x)] (low eight bits). *)
Definition byte_val (b : ascii) : Z := Z.of_N (N_of_ascii b).
Definition byte_of (x : Z) : ascii := ascii_of_N (Z.to_N (x mod 256)).

(** ** Package [unicode/utf8] *)
Module Utf8.

Definition RuneError : Z := 0xFFFD.
Definition RuneSelf : Z := 0x80.
Definition MaxRune : Z := 0x10FFFF.

(** The table [first] of the Go decoder: what a leading byte announces.
    [FLead sz lo hi] is a sequence of [sz] bytes whose second byte must
    lie in [lo..hi]. *)
Inductive first_info :=
  | FAscii
  | FInvalid
  | FLead (sz : nat) (lo hi : Z).

Definition first (s0 : Z) : first_info :=
  if (s0 <? 0x80)%Z then FAscii
  else if (s0 <? 0xC2)%Z then FInvalid
  else if (s0 <? 0xE0)%Z then FLead 2 0x80 0xBF
  else if (s0 =? 0xE0)%Z then FLead 3 0xA0 0xBF
  else if (s0 =? 0xED)%Z then FLead 3 0x80 0x9F
  else if (s0 <? 0xF0)%Z then FLead 3 0x80 0xBF
  else if (s0 =? 0xF0)%Z then FLead 4 0x90 0xBF
  else if (s0 <? 0xF4)%Z then FLead 4 0x80 0xBF
  else if (s0 =? 0xF4)%Z then FLead 4 0x80 0x8F
  else FInvalid.

Definition between (lo hi : Z) (b : ascii) : bool :=
  ((lo <=? byte_val b) && (byte_val b <=? hi))%Z.

Definition locb : Z := 0x80.
Definition hicb : Z := 0xBF.
Definition maskx (b : ascii) : Z := Z.land (byte_val b) 0x3F.

(** [utf8.DecodeRuneInString]: the first rune of [s] and its width in
    bytes; [(RuneError, 0)] on the empty string and [(RuneError, 1)] on
    an invalid encoding. *)
Definition DecodeRuneInString (s : gostring) : Z * nat :=
  match s with
  | [] => (RuneError, 0)
  | s0 :: t =>
    match first (byte_val s0) with
    | FAscii => (byte_val s0, 1)
    | FInvalid => (RuneError, 1)
    | FLead sz lo hi =>
      if length s <? sz then (RuneError, 1) else
      match t with
      | [] => (RuneError, 1)
      | s1 :: t1 =>
        if negb (between lo hi s1) then (RuneError, 1) else
        if sz <=? 2 then
          (Z.lor (Z.shiftl (Z.land (byte_val s0) 0x1F) 6) (maskx s1), 2)
        else
        match t1 with
        | [] => (RuneError, 1)
        | s2 :: t2 =>
          if negb (between locb hicb s2) then (RuneError, 1) else
          if sz <=? 3 then
            (Z.lor (Z.lor (Z.shiftl (Z.land (byte_val s0) 0x0F) 12)
                          (Z.shiftl (maskx s1) 6)) (maskx s2), 3)
          else
          match t2 with
          | [] => (RuneError, 1)
          | s3 :: _ =>
            if negb (between locb hicb s3) then (RuneError, 1) else
            (Z.lor (Z.lor (Z.lor (Z.shiftl (Z.land (byte_val s0) 0x07) 18)
                                 (Z.shiftl (maskx s1) 12))
                          (Z.shiftl (maskx s2) 6)) (maskx s3), 4)
          end
        end
      end
    end
  end.

(** The three-byte form, shared by the replacement character. *)
Definition encode3 (r : Z) : gostring :=
  [ byte_of (Z.lor 0xE0 (Z.shiftr r 12));
    byte_of (Z.lor 0x80 (Z.land (Z.shiftr r 6) 0x3F));
    byte_of (Z.lor 0x80 (Z.land r 0x3F)) ].

(** [utf8.AppendRune] on an empty buffer: the encoding of [r]; runes
    that are out of range or surrogates are written as [RuneError]. *)
Definition EncodeRune (r : Z) : gostring :=
  if (r <? 0)%Z then encode3 RuneError
  else if (r <=? 0x7F)%Z then [byte_of r]
  else if (r <=? 0x7FF)%Z then
    [ byte_of (Z.lor 0xC0 (Z.shiftr r 6));
      byte_of (Z.lor 0x80 (Z.land r 0x3F)) ]
  else if ((MaxRune <? r) || ((0xD800 <=? r) && (r <=? 0xDFFF)))%Z then
    encode3 RuneError
  else if (r <=? 0xFFFF)%Z then encode3 r
  else
    [ byte_of (Z.lor 0xF0 (Z.shiftr r 18));
      byte_of (Z.lor 0x80 (Z.land (Z.shiftr r 12) 0x3F));
      byte_of (Z.lor 0x80 (Z.land (Z.shiftr r 6) 0x3F));
      byte_of (Z.lor 0x80 (Z.land r 0x3F)) ].

(** The loop [for _, c := range s]: every rune of [s] with the bytes it
    was read from.  Each step consumes at least one byte, so [length s]
    steps suffice. *)
Fixpoint decode_all (fuel : nat) (s : gostring) : list (Z * gostring) :=
  match fuel with
  | 0 => []
  | S fuel' =>
    match s with
    | [] => []
    | _ :: _ =>
      let '(r, size) := DecodeRuneInString s in
      (r, take size s) :: decode_all fuel' (drop size s)
    end
  end.

Definition runes (s : gostring) : list Z := (decode_all (length s) s).*1.

End Utf8.

(** ** Package [strings] *)
Module Strings.

(** [strings.HasPrefix]. *)
Definition HasPrefix (s prefix : gostring) : bool :=
  (length prefix <=? length s) && bool_decide (take (length prefix) s = prefix).

(** [strings.HasSuffix]. *)
Definition HasSuffix (s suffix : gostring) : bool :=
  (length suffix <=? length s)
  && bool_decide (drop (length s - length suffix) s = suffix).

(** [strings.Index]: the position of the first occurrence of [substr]
    in [s]; [None] stands for Go's [-1]. *)
Fixpoint Index (s substr : gostring) : option nat :=
  if HasPrefix s substr then Some 0
  else match s with
       | [] => None
       | _ :: t => S <$> Index t substr
       end.

(** [strings.Contains]. *)
Definition Contains (s substr : gostring) : bool :=
  match Index s substr with Some _ => true | None => false end.

(** [strings.explode]: [s] cut into its UTF-8 sequences. *)
Definition explode (s : gostring) : list gostring :=
  (Utf8.decode_all (length s) s).*2.

(** The loop of [strings.genSplit] for a non-empty separator; it makes
    at most [len(s)] cuts. *)
Fixpoint genSplit (fuel : nat) (s sep : gostring) : list gostring :=
  match fuel with
  | 0 => [s]
  | S fuel' =>
    match Index s sep with
    | None => [s]
    | Some m => take m s :: genSplit fuel' (drop (m + length sep) s) sep
    end
  end.

(** [strings.Split]. *)
Definition Split (s sep : gostring) : list gostring :=
  match sep with
  | [] => explode s
  | _ :: _ => genSplit (length s) s sep
  end.

Definition is_upper (c : ascii) : bool :=
  ((byte_val (ascii_of_nat 65) <=? byte_val c)
   && (byte_val c <=? byte_val (ascii_of_nat 90)))%Z.

(** The ASCII branch of [strings.ToLower]: [c += 'a' - 'A']. *)
Definition lower_byte (c : ascii) : ascii :=
  if is_upper c then byte_of (byte_val c + 32) else c.

Section WithUnicode.

(** [unicode.ToLower], the case table of the Go runtime. *)
Variable unicode_ToLower : Z → Z.

(** [strings.Map]: every rune of [s] is mapped and written back in
    UTF-8, a negative result drops the rune.  (Go copies the runes that
    the mapping leaves alone instead of encoding them again, which for a
    well-formed rune gives the same bytes.) *)
Definition Map (mapping : Z → Z) (s : gostring) : gostring :=
  concat (map (λ c, let r := mapping c in
                    if (r <? 0)%Z then [] else Utf8.EncodeRune r)
              (Utf8.runes s)).

(** [strings.ToLower]: bytewise on an ASCII-only string, through
    [unicode.ToLower] otherwise. *)
Definition ToLower (s : gostring) : gostring :=
  if forallb (λ c, (byte_val c <? Utf8.RuneSelf)%Z) s
  then map lower_byte s
  else Map unicode_ToLower s.

End WithUnicode.

End Strings.

(** ** [irc/net.go]: hostname validation *)

Definition allowedHostnameChars : gostring :=
  str "abcdefghijklmnopqrstuvwxyz1234567890-.".

Section Hostname.

Variable unicode_ToLower : Z → Z.

Definition IsHostname (name : gostring) : bool :=
  (* IRC hostnames specifically require a period *)
  if negb (Strings.Contains name (str ".")) || (length name <? 1)
     || (253 <? length name)
  then false
  (* ensure each part of hostname is valid *)
  else if existsb (λ part, (length part <? 1) || (63 <? length part)
                           || Strings.HasPrefix part (str "-")
                           || Strings.HasSuffix part (str "-"))
                  (Strings.Split name (str "."))
  then false
  (* ensure all chars of hostname are valid *)
  else if existsb (λ char, negb (Strings.Contains allowedHostnameChars char))
                  (Strings.Split (Strings.ToLower unicode_ToLower name) [])
  then false
  else true.

End Hostname.

(** A lowering function to run the model on: the ASCII letters as Go
    lowers them, the two runes outside ASCII that the Unicode table
    lowers to an ASCII letter (U+0130 to "i", the Kelvin sign U+212A to
    "k"), and the identity elsewhere. *)
Definition simple_ToLower (r : Z) : Z :=
  if ((65 <=? r) && (r <=? 90))%Z then (r + 32)%Z
  else if (r =? 0x130)%Z then 105%Z
  else if (r =? 0x212A)%Z then 107%Z
  else r.

(** ** Outcomes of a call

    A call either returns, or ends the process through [log.Fatal]
    (which is [os.Exit(1)] after printing), or panics at run time. *)
Inductive outcome (A : Type) : Type :=
  | Done (a : A)
  | Exit
  | Panic.
Arguments Done {A} a.
Arguments Exit {A}.
Arguments Panic {A}.

(** A Go [error]: its message. *)
Abbreviation error := (list ascii) (only parsing).

(** ** Package [net] *)
Module Net.

(** [bytealg.IndexByteString]. *)
Fixpoint IndexByte (s : gostring) (c : ascii) : option nat :=
  match s with
  | [] => None
  | x :: t => if bool_decide (x = c) then Some 0 else S <$> IndexByte t c
  end.

(** [last]: the index of the last occurrence of [b] in [s]. *)
Fixpoint last (s : gostring) (b : ascii) : option nat :=
  match s with
  | [] => None
  | x :: t =>
    match last t b with
    | Some i => Some (S i)
    | None => if bool_decide (x = b) then Some 0 else None
    end
  end.

Definition missingPort : gostring := str "missing port in address".
Definition tooManyColons : gostring := str "too many colons in address".

(** [net.SplitHostPort]: [host:port], [[host]:port] or
    [[host%zone]:port] into host and port. *)
Definition SplitHostPort (hostport : gostring)
  : gostring * gostring * option error :=
  let addrErr (why : gostring) : gostring * gostring * option error :=
    ([], [], Some (str "address " ++ hostport ++ str ": " ++ why)) in
  match last hostport ":"%char with
  | None => addrErr missingPort
  | Some i =>
    let bracketed : gostring + (gostring * nat * nat) :=
      if bool_decide (hostport !! 0 = Some "["%char) then
        match IndexByte hostport "]"%char with
        | None => inl (str "missing ']' in address")
        | Some end_ =>
          if end_ + 1 =? length hostport then inl missingPort
          else if end_ + 1 =? i then
            inr (take (end_ - 1) (drop 1 hostport), 1, end_ + 1)
          else if bool_decide (hostport !! (end_ + 1) = Some ":"%char)
          then inl tooManyColons
          else inl missingPort
        end
      else
        let host := take i hostport in
        match IndexByte host ":"%char with
        | Some _ => inl tooManyColons
        | None => inr (host, 0, 0)
        end in
    match bracketed with
    | inl why => addrErr why
    | inr (host, j, k) =>
      match IndexByte (drop j hostport) "["%char with
      | Some _ => addrErr (str "unexpected '[' in address")
      | None =>
        match IndexByte (drop k hostport) "]"%char with
        | Some _ => addrErr (str "unexpected ']' in address")
        | None => (host, drop (i + 1) hostport, None)
        end
      end
    end
  end.

(** The interface [net.Addr], by the results of its two methods. *)
Record Addr := { Network : gostring; String : gostring }.

End Net.

(** ** [irc/net.go]: address resolution *)

Definition IPString (addr : Net.Addr) : gostring :=
  let addrStr := Net.String addr in
  let '(ipaddr, _, err) := Net.SplitHostPort addrStr in
  match err with
  | Some _ => addrStr
  | None => ipaddr
  end.

Section Resolver.

Variable unicode_ToLower : Z → Z.

(** [net.LookupAddr]: the reverse lookup done by the resolver of the
    host, with the names found and the error. *)
Variable net_LookupAddr : gostring → list gostring * option error.

Definition LookupHostname (addr : gostring) : outcome gostring :=
  let '(names, err) := net_LookupAddr addr in
  match err with
  | Some _ =>
    (* return original address *)
    Done addr
  | None =>
    match names with
    | [] => Panic (* names[0]: index out of range *)
    | names0 :: _ =>
      if negb (IsHostname unicode_ToLower names0) then Done addr
      else Done names0
    end
  end.

Definition AddrLookupHostname (addr : Net.Addr) : outcome gostring :=
  LookupHostname (IPString addr).

End Resolver.

(** ** [irc/config.go]: the configuration aggregate *)

Record PassConfig := { PassConfig_Password : gostring }.

(** [TLSListenConfig] defines configuration options for listening on TLS. *)
Record TLSListenConfig := { Cert : gostring; Key : gostring }.

Record MailtoTLSConfig := {
  TLS_Enabled : bool;
  InsecureSkipVerify : bool;
  ServerName : gostring }.

Record MailtoConfig := {
  Mailto_Server : gostring;
  Mailto_Port : Z;
  Mailto_TLS : MailtoTLSConfig;
  Username : gostring;
  Mailto_Password : gostring;
  Sender : gostring;
  VerifyMessageSubject : gostring;
  VerifyMessage : gostring }.

Record AccountRegistrationConfig := {
  Enabled : bool;
  EnabledCallbacks : list gostring;
  Callbacks_Mailto : MailtoConfig }.

Record ServerConfig := {
  Server_PassConfig : PassConfig;
  Password : gostring;
  Name : gostring;
  Listen : list gostring;
  Wslisten : gostring;
  Server_TLSListeners : gmap gostring (option TLSListenConfig);
  CheckIdent : bool;
  Log : gostring;
  MOTD : gostring;
  ProxyAllowedFrom : list gostring }.

Record LimitsConfig := {
  NickLen : Z;
  ChannelLen : Z;
  AwayLen : Z;
  KickLen : Z;
  TopicLen : Z;
  WhowasEntries : N }.

Record Config := {
  Network_Name : gostring;
  Server : ServerConfig;
  Datastore_Path : gostring;
  Registration_Accounts : AccountRegistrationConfig;
  Operator : gmap gostring (option PassConfig);
  Limits : LimitsConfig }.

(** ** Calls with a log

    The resolvers print to the process log and call collaborators that
    live outside this file; a run is the sequence of these events and
    the outcome. *)
Inductive Event :=
  | CallCasefoldName (name : gostring)
  | CallDecodePassword (encoded : gostring)
  | CallLoadX509KeyPair (certFile keyFile : gostring)
  | LogPrintln (msg : gostring)
  | LogFatal (msg : gostring).

Definition run (A : Type) : Type := list Event * outcome A.

Definition ret {A} (a : A) : run A := ([], Done a).

Definition bind {A B} (f : A → run B) (m : run A) : run B :=
  match m with
  | (t, Done a) => let '(t', o) := f a in (t ++ t', o)
  | (t, Exit) => (t, Exit)
  | (t, Panic) => (t, Panic)
  end.

#[global] Instance run_ret : MRet run := @ret.
#[global] Instance run_bind : MBind run := @bind.

Definition emit (e : Event) : run unit := ([e], Done tt).
Definition log_Fatal {A} (msg : gostring) : run A := ([LogFatal msg], Exit).
Definition panic {A} : run A := ([], Panic).

(** [for k, v := range m] threading the state built by the body. *)
Fixpoint range {K V S} (entries : list (K * V)) (body : S → K → V → run S)
    (s : S) : run S :=
  match entries with
  | [] => mret s
  | (k, v) :: rest => s' ← body s k v; range rest body s'
  end.

(** ** [irc/config.go]: resolvers and loader *)

Section Config.

(** [tls.Certificate] and [tls.LoadX509KeyPair], which reads the two
    files and parses the pair. *)
Variable Certificate : Type.
Variable tls_LoadX509KeyPair : gostring → gostring → Certificate * option error.

(** [CasefoldName] and [DecodePassword] of package [irc]. *)
Variable CasefoldName : gostring → gostring * option error.
Variable DecodePassword : gostring → gostring * option error.

(** [ioutil.ReadFile], and [yaml.Unmarshal] with the pointer it leaves
    in [config]. *)
Variable ioutil_ReadFile : gostring → gostring * option error.
Variable yaml_Unmarshal : gostring → option Config * option error.

Variable unicode_ToLower : Z → Z.

(** [tls.Config], of which only the certificates are set. *)
Record tls_Config := { Certificates : list Certificate }.

(** [Config] returns the TLS configuration associated with this
    [TLSListenConfig]. *)
Definition TLSListenConfig_Config (conf : option TLSListenConfig)
  : run (option tls_Config * option error) :=
  match conf with
  | None => panic
  | Some conf =>
    emit (CallLoadX509KeyPair (Cert conf) (Key conf)) ;;
    let '(cert, err) := tls_LoadX509KeyPair (Cert conf) (Key conf) in
    match err with
    | Some _ => mret (None, Some (str "tls cert+key: invalid pair"))
    | None => mret (Some {| Certificates := [cert] |}, err)
    end
  end.

Definition PasswordBytes (conf : option PassConfig) : run gostring :=
  match conf with
  | None => panic
  | Some conf =>
    emit (CallDecodePassword (PassConfig_Password conf)) ;;
    let '(bytes, err) := DecodePassword (PassConfig_Password conf) in
    match err with
    | Some e => log_Fatal (str "decode password error: " ++ e)
    | None => mret bytes
    end
  end.

(** The body of the loop of [Operators]. *)
Definition Operators_body (operators : gmap gostring gostring)
    (name : gostring) (opConf : option PassConfig)
  : run (gmap gostring gostring) :=
  emit (CallCasefoldName name) ;;
  let '(name, err) := CasefoldName name in
  match err with
  | None =>
    bytes ← PasswordBytes opConf;
    mret (<[name := bytes]> operators)
  | Some e =>
    emit (LogPrintln (str "Could not casefold oper name: " ++ e)) ;;
    mret operators
  end.

(** [Operators], on the enumeration [entries] of [conf.Operator]. *)
Definition Operators (entries : list (gostring * option PassConfig))
  : run (gmap gostring gostring) :=
  range entries Operators_body ∅.

(** The body of the loop of [TLSListeners]. *)
Definition TLSListeners_body (tlsListeners : gmap gostring (option tls_Config))
    (s : gostring) (tlsListenersConf : option TLSListenConfig)
  : run (gmap gostring (option tls_Config)) :=
  '(config, err) ← TLSListenConfig_Config tlsListenersConf;
  match err with
  | Some e => log_Fatal e
  | None =>
    emit (CallCasefoldName s) ;;
    let '(name, err) := CasefoldName s in
    match err with
    | None => mret (<[name := config]> tlsListeners)
    | Some e =>
      emit (LogPrintln (str "Could not casefold TLS listener: " ++ e)) ;;
      mret tlsListeners
    end
  end.

(** [TLSListeners], on the enumeration [entries] of
    [conf.Server.TLSListeners]. *)
Definition TLSListeners (entries : list (gostring * option TLSListenConfig))
  : run (gmap gostring (option tls_Config)) :=
  range entries TLSListeners_body ∅.

(** The assignment [config.Server.PassConfig.Password =
    config.Server.Password]. *)
Definition set_PassConfig_Password (config : Config) : Config :=
  let server := Server config in
  {| Network_Name := Network_Name config;
     Server :=
       {| Server_PassConfig := {| PassConfig_Password := Password server |};
          Password := Password server;
          Name := Name server;
          Listen := Listen server;
          Wslisten := Wslisten server;
          Server_TLSListeners := Server_TLSListeners server;
          CheckIdent := CheckIdent server;
          Log := Log server;
          MOTD := MOTD server;
          ProxyAllowedFrom := ProxyAllowedFrom server |};
     Datastore_Path := Datastore_Path config;
     Registration_Accounts := Registration_Accounts config;
     Operator := Operator config;
     Limits := Limits config |}.

Definition is_empty (s : gostring) : bool :=
  match s with [] => true | _ :: _ => false end.

Definition LoadConfig (filename : gostring)
  : outcome (option Config * option error) :=
  let '(data, err) := ioutil_ReadFile filename in
  match err with
  | Some e => Done (None, Some e)
  | None =>
    let '(config, err) := yaml_Unmarshal data in
    match err with
    | Some e => Done (None, Some e)
    | None =>
      match config with
      | None => Panic (* config.Server: nil pointer dereference *)
      | Some config =>
        (* we need this so PasswordBytes returns the correct info *)
        let config :=
          if negb (is_empty (Password (Server config)))
          then set_PassConfig_Password config
          else config in
        if is_empty (Network_Name config) then
          Done (None, Some (str "Network name missing"))
        else if is_empty (Name (Server config)) then
          Done (None, Some (str "Server name missing"))
        else if negb (IsHostname unicode_ToLower (Name (Server config))) then
          Done (None,
                Some (str "Server name must match the format of a hostname"))
        else if is_empty (Datastore_Path config) then
          Done (None, Some (str "Datastore path missing"))
        else if length (Listen (Server config)) =? 0 then
          Done (None, Some (str "Server listening addresses missing"))
        else if ((NickLen (Limits config) <? 1)
                 || (ChannelLen (Limits config) <? 2)
                 || (AwayLen (Limits config) <? 1)
                 || (TopicLen (Limits config) <? 1)
                 || (TopicLen (Limits config) <? 1))%Z then
          Done (None,
                Some (str "Limits aren't setup properly, check them and make them sane"))
        else Done (Some config, None)
      end
    end
  end.

End Config.

(** ** The hostname grammar, as the specification words it *)

(** [join_with c ls]: the labels [ls] written with [c] between them. *)
Fixpoint join_with (c : ascii) (ls : list gostring) : gostring :=
  match ls with
  | [] => []
  | [l] => l
  | l :: ls' => l ++ c :: join_with c ls'
  end.

(** [ls] are the [c]-delimited labels of [name]. *)
Definition delimited (c : ascii) (name : gostring) (ls : list gostring) : Prop :=
  ls ≠ [] ∧ name = join_with c ls ∧ Forall (λ l, c ∉ l) ls.

(** A label has between 1 and 63 bytes and no dash at either end. *)
Definition label_ok (l : gostring) : Prop :=
  1 ≤ length l ≤ 63 ∧ head l ≠ Some "-"%char ∧ last l ≠ Some "-"%char.

(** The runes [a-z0-9.-]. *)
Definition allowed_rune (r : Z) : Prop :=
  (97 ≤ r ≤ 122)%Z ∨ (48 ≤ r ≤ 57)%Z ∨ r = 46%Z ∨ r = 45%Z.

(** The same set, as a test. *)
Definition allowed_runeb (r : Z) : bool :=
  (((97 <=? r) && (r <=? 122)) || ((48 <=? r) && (r <=? 57))
   || (r =? 46) || (r =? 45))%Z.

Section HostnameSpec.

Variable unicode_ToLower : Z → Z.

(** The four rules of the validator. *)
Definition hostname_spec (name : gostring) : Prop :=
  1 ≤ length name ≤ 253
  ∧ "."%char ∈ name
  ∧ (∀ ls, delimited "." name ls → Forall label_ok ls)
  ∧ Forall (λ r, allowed_rune (unicode_ToLower r)) (Utf8.runes name).

End HostnameSpec.

(** The ASCII letters, capital and small. *)
Definition letter (c : ascii) : Prop :=
  (65 ≤ byte_val c ≤ 90)%Z ∨ (97 ≤ byte_val c ≤ 122)%Z.

(** The bytes [A-Za-z0-9.-]. *)
Definition hostname_byte (c : ascii) : Prop :=
  letter c ∨ (48 ≤ byte_val c ≤ 57)%Z ∨ c = "."%char ∨ c = "-"%char.

(** The ASCII-lowercased form of a string. *)
Definition ascii_lowercase (s : gostring) : gostring :=
  map (λ c, if ((65 <=? byte_val c) && (byte_val c <=? 90))%Z
            then byte_of (byte_val c + 32) else c) s.

(** ** The load-time invariants, as the specification lists them *)

Definition limits_in_bounds (c : Config) : bool :=
  ((1 <=? NickLen (Limits c)) && (2 <=? ChannelLen (Limits c))
   && (1 <=? AwayLen (Limits c)) && (1 <=? TopicLen (Limits c)))%Z.

Definition limits_error : error :=
  str "Limits aren't setup properly, check them and make them sane".

(** The six checks in their order, each with whether it holds of [c]
    and the error reported when it does not. *)
Definition invariants (unicode_ToLower : Z → Z) (c : Config)
  : list (bool * error) :=
  [ (negb (is_empty (Network_Name c)), str "Network name missing");
    (negb (is_empty (Name (Server c))), str "Server name missing");
    (IsHostname unicode_ToLower (Name (Server c)),
     str "Server name must match the format of a hostname");
    (negb (is_empty (Datastore_Path c)), str "Datastore path missing");
    (negb (length (Listen (Server c)) =? 0),
     str "Server listening addresses missing");
    (limits_in_bounds c, limits_error) ].

(** The error of the earliest violated check, if any. *)
Definition first_violation (unicode_ToLower : Z → Z) (c : Config)
  : option error :=
  snd <$> find (λ p : bool * error, negb p.1) (invariants unicode_ToLower c).

(** What the loader returns for a deserialized aggregate [c]: the
    error of the earliest violated check and no config, or [c]. *)
Definition checked (unicode_ToLower : Z → Z) (c : Config)
  : option Config * option error :=
  match first_violation unicode_ToLower c with
  | Some e => (None, Some e)
  | None => (Some c, None)
  end.

(** The normalization step: a non-empty flat [Server.Password] is
    copied to the nested [Server.PassConfig.Password]. *)
Definition normalize (c : Config) : Config :=
  match Password (Server c) with
  | [] => c
  | _ :: _ => set_PassConfig_Password c
  end.

(** [c] with another [Limits.KickLen]. *)
Definition with_KickLen (k : Z) (c : Config) : Config :=
  {| Network_Name := Network_Name c;
     Server := Server c;
     Datastore_Path := Datastore_Path c;
     Registration_Accounts := Registration_Accounts c;
     Operator := Operator c;
     Limits :=
       {| NickLen := NickLen (Limits c);
          ChannelLen := ChannelLen (Limits c);
          AwayLen := AwayLen (Limits c);
          KickLen := k;
          TopicLen := TopicLen (Limits c);
          WhowasEntries := WhowasEntries (Limits c) |} |}.

(** [c] is [c0] but for the nested [Server.PassConfig.Password]. *)
Definition same_but_nested_password (c0 c : Config) : Prop :=
  Network_Name c = Network_Name c0
  ∧ Datastore_Path c = Datastore_Path c0
  ∧ Registration_Accounts c = Registration_Accounts c0
  ∧ Operator c = Operator c0
  ∧ Limits c = Limits c0
  ∧ Password (Server c) = Password (Server c0)
  ∧ Name (Server c) = Name (Server c0)
  ∧ Listen (Server c) = Listen (Server c0)
  ∧ Wslisten (Server c) = Wslisten (Server c0)
  ∧ Server_TLSListeners (Server c) = Server_TLSListeners (Server c0)
  ∧ CheckIdent (Server c) = CheckIdent (Server c0)
  ∧ Log (Server c) = Log (Server c0)
  ∧ MOTD (Server c) = MOTD (Server c0)
  ∧ ProxyAllowedFrom (Server c) = ProxyAllowedFrom (Server c0).

(** The limits that the loader refuses. *)
Definition limits_out_of_bounds (c : Config) : Prop :=
  (NickLen (Limits c) < 1 ∨ ChannelLen (Limits c) < 2
   ∨ AwayLen (Limits c) < 1 ∨ TopicLen (Limits c) < 1)%Z.

(** The five invariants that are checked before the limits. *)
Definition other_invariants (unicode_ToLower : Z → Z) (c : Config) : Prop :=
  Network_Name c ≠ []
  ∧ Name (Server c) ≠ []
  ∧ IsHostname unicode_ToLower (Name (Server c)) = true
  ∧ Datastore_Path c ≠ []
  ∧ Listen (Server c) ≠ [].

Arguments Certificates {Certificate} _.
Arguments Build_tls_Config {Certificate} _.

(** ** What the resolvers build, as the specification words it *)

Section ResolverSpec.

Variable Certificate : Type.
Variable tls_LoadX509KeyPair : gostring → gostring → Certificate * option error.
Variable CasefoldName : gostring → gostring * option error.
Variable DecodePassword : gostring → gostring * option error.

(** The canonical form of a name, when canonicalization succeeds. *)
Definition canonical (name : gostring) : option gostring :=
  match CasefoldName name with
  | (folded, None) => Some folded
  | (_, Some _) => None
  end.

(** The decoded secret of an operator entry, when there is one. *)
Definition decoded (opConf : option PassConfig) : option gostring :=
  match opConf with
  | None => None
  | Some conf =>
    match DecodePassword (PassConfig_Password conf) with
    | (bytes, None) => Some bytes
    | (_, Some _) => None
    end
  end.

(** The TLS context of a listener entry, when its pair loads. *)
Definition loaded (conf : option TLSListenConfig)
  : option (option (tls_Config Certificate)) :=
  match conf with
  | None => None
  | Some conf =>
    match tls_LoadX509KeyPair (Cert conf) (Key conf) with
    | (cert, None) => Some (Some {| Certificates := [cert] |})
    | (_, Some _) => None
    end
  end.

(** The map of the entries whose name canonicalizes, keyed by the
    canonical name; an entry whose name does not is passed over. *)
Definition collect {V W} (value : V → option W)
    (entries : list (gostring * V)) (start : gmap gostring W)
  : gmap gostring W :=
  foldl (λ m entry,
           match canonical entry.1, value entry.2 with
           | Some name, Some w => <[name := w]> m
           | _, _ => m
           end) start entries.

End ResolverSpec.



(** ** Sample inputs *)


(** An address with a port, as [net.TCPAddr] prints itself. *)
Definition sample_tcp_addr : Net.Addr :=
  {| Net.Network := str "tcp"; Net.String := str "192.0.2.7:6667" |}.

(** A resolver that knows one address. *)
Definition sample_resolver (addr : gostring) : list gostring * option error :=
  if bool_decide (addr = str "192.0.2.7")
  then ([str "irc.example.com"; str "other.example.com"], None)
  else ([], Some (str "lookup: no such host")).

(** A resolver that answers without an error and without a name. *)
Definition sample_resolver_empty (addr : gostring)
  : list gostring * option error :=
  ([], None).

Definition sample_mailto : MailtoConfig :=
  {| Mailto_Server := []; Mailto_Port := 0;
     Mailto_TLS := {| TLS_Enabled := false; InsecureSkipVerify := false;
                      ServerName := [] |};
     Username := []; Mailto_Password := []; Sender := [];
     VerifyMessageSubject := []; VerifyMessage := [] |}.

Definition sample_config : Config :=
  {| Network_Name := str "ExampleNet";
     Server :=
       {| Server_PassConfig := {| PassConfig_Password := [] |};
          Password := str "JDJhJDA0JG";
          Name := str "irc.example.com";
          Listen := [str ":6667"];
          Wslisten := [];
          Server_TLSListeners :=
            {[ str ":6697" := Some {| Cert := str "tls.crt"; Key := str "tls.key" |} ]};
          CheckIdent := true;
          Log := [];
          MOTD := str "ergo.motd";
          ProxyAllowedFrom := [] |};
     Datastore_Path := str "ircd.db";
     Registration_Accounts :=
       {| Enabled := true; EnabledCallbacks := [str "none"];
          Callbacks_Mailto := sample_mailto |};
     Operator := {[ str "dan" := Some {| PassConfig_Password := str "JDJhJDA0JG" |} ]};
     Limits := {| NickLen := 32; ChannelLen := 64; AwayLen := 200;
                  KickLen := 390; TopicLen := 390; WhowasEntries := 100 |} |}.

(** A document that breaks the first, the third and the last invariant. *)
Definition sample_broken_config : Config :=
  {| Network_Name := [];
     Server :=
       {| Server_PassConfig := {| PassConfig_Password := [] |};
          Password := [];
          Name := str "localhost";
          Listen := [str ":6667"];
          Wslisten := [];
          Server_TLSListeners := ∅;
          CheckIdent := false;
          Log := [];
          MOTD := [];
          ProxyAllowedFrom := [] |};
     Datastore_Path := str "ircd.db";
     Registration_Accounts :=
       {| Enabled := false; EnabledCallbacks := [];
          Callbacks_Mailto := sample_mailto |};
     Operator := ∅;
     Limits := {| NickLen := 0; ChannelLen := 0; AwayLen := 0;
                  KickLen := 0; TopicLen := 0; WhowasEntries := 0 |} |}.

Definition sample_ReadFile (filename : gostring) : gostring * option error :=
  if bool_decide (filename = str "ircd.yaml")
  then (str "network: ...", None)
  else ([], Some (str "open: no such file or directory")).

Definition sample_Unmarshal (data : gostring) : option Config * option error :=
  (Some sample_config, None).

Definition sample_Unmarshal_broken (data : gostring)
  : option Config * option error :=
  (Some sample_broken_config, None).

Definition sample_listener : TLSListenConfig :=
  {| Cert := str "tls.crt"; Key := str "tls.key" |}.



(** Sample collaborators that succeed: names are ASCII-lowercased, a
    pair is the two file names, a secret decodes to itself. *)
Definition sample_CasefoldName (name : gostring) : gostring * option error :=
  match name with
  | [] => ([], Some (str "name is empty"))
  | _ :: _ => (ascii_lowercase name, None)
  end.

Definition sample_LoadX509KeyPair (certFile keyFile : gostring)
  : gostring * option error :=
  (certFile ++ keyFile, None).

Definition sample_DecodePassword (encoded : gostring) : gostring * option error :=
  (encoded, None).

(** A resolver that answers as the resolver of Go does, with the name
    in absolute form. *)
Definition sample_resolver_absolute (addr : gostring)
  : list gostring * option error :=
  ([str "irc.example.com."], None).

(** Two aggregates that the checks of the loader cannot tell apart:
    they agree on whether the network name, the server name, the
    datastore path and the list of listening addresses are empty, on
    the server name, and on the four limits that are checked. *)
Definition same_checked_fields (c c' : Config) : Prop :=
  (Network_Name c = [] ↔ Network_Name c' = [])
  ∧ Name (Server c) = Name (Server c')
  ∧ (Datastore_Path c = [] ↔ Datastore_Path c' = [])
  ∧ (Listen (Server c) = [] ↔ Listen (Server c') = [])
  ∧ NickLen (Limits c) = NickLen (Limits c')
  ∧ ChannelLen (Limits c) = ChannelLen (Limits c')
  ∧ AwayLen (Limits c) = AwayLen (Limits c')
  ∧ TopicLen (Limits c) = TopicLen (Limits c').

(** The error of a return of the loader. *)
Definition returned_error (r : outcome (option Config * option error))
  : option (option error) :=
  match r with
  | Done (_, err) => Some err
  | Exit | Panic => None
  end.

(** The sample configuration with no operator, no listener and other
    values in the fields that are not checked. *)
Definition sample_config_bare : Config :=
  {| Network_Name := str "N";
     Server :=
       {| Server_PassConfig := {| PassConfig_Password := str "nested" |};
          Password := [];
          Name := str "irc.example.com";
          Listen := [str ":6697"; str ":7000"];
          Wslisten := str ":8080";
          Server_TLSListeners := ∅;
          CheckIdent := false;
          Log := str "ircd.log";
          MOTD := [];
          ProxyAllowedFrom := [str "localhost"] |};
     Datastore_Path := str "other.db";
     Registration_Accounts :=
       {| Enabled := false; EnabledCallbacks := [];
          Callbacks_Mailto := sample_mailto |};
     Operator := ∅;
     Limits := {| NickLen := 32; ChannelLen := 64; AwayLen := 200;
                  KickLen := -5; TopicLen := 390; WhowasEntries := 0 |} |}.

Definition sample_Unmarshal_bare (data : gostring)
  : option Config * option error :=
  (Some sample_config_bare, None).

(** The lines printed by a run, the secrets it asked to decode and the
    pairs of files it asked to load, each in the order of the run. *)
Definition printed (t : list Event) : list gostring :=
  omap (λ e, match e with LogPrintln msg => Some msg | _ => None end) t.

Definition decode_calls (t : list Event) : list gostring :=
  omap (λ e, match e with CallDecodePassword p => Some p | _ => None end) t.

Definition load_calls (t : list Event) : list (gostring * gostring) :=
  omap (λ e, match e with
             | CallLoadX509KeyPair c k => Some (c, k)
             | _ => None
             end) t.

(** No two of [names] have the same canonical form. *)
Definition no_collision (CasefoldName : gostring → gostring * option error)
    (names : list gostring) : Prop :=
  ∀ n1 n2 k, n1 ∈ names → n2 ∈ names →
             canonical CasefoldName n1 = Some k →
             canonical CasefoldName n2 = Some k → n1 = n2.

(** Two operators whose names differ in case only. *)
Definition sample_operators_colliding : list (gostring * option PassConfig) :=
  [ (str "Dan", Some {| PassConfig_Password := str "b2xk" |});
    (str "dan", Some {| PassConfig_Password := str "bmV3" |}) ].

Definition sample_operators_two : gmap gostring (option PassConfig) :=
  {[ str "dan" := Some {| PassConfig_Password := str "b2xk" |};
     str "Ada" := Some {| PassConfig_Password := str "bmV3" |} ]}.

(** The sample configuration with two operators. *)
Definition sample_config_two_operators : Config :=
  {| Network_Name := Network_Name sample_config;
     Server := Server sample_config;
     Datastore_Path := Datastore_Path sample_config;
     Registration_Accounts := Registration_Accounts sample_config;
     Operator := sample_operators_two;
     Limits := Limits sample_config |}.

(** A decoder that refuses every secret. *)
Definition sample_DecodePassword_failing (encoded : gostring)
  : gostring * option error :=
  ([], Some (str "illegal base64 data at input byte 0")).

(** An empty configuration file, and a parser that, as yaml.v2 does on
    an empty or null document, reports no error and leaves the config
    pointer nil. *)
Definition sample_ReadFile_empty (filename : gostring)
  : gostring * option error :=
  ([], None).

Definition sample_Unmarshal_empty (data : gostring)
  : option Config * option error :=
  match data with
  | [] => (None, None)
  | _ :: _ => (Some sample_config, None)
  end.

(** * Properties *)

(** ** Bytes *)

Lemma byte_val_bounds b : (0 ≤ byte_val b < 256)%Z.
Proof. unfold byte_val. pose proof (N_ascii_bounded b). lia. Qed.

Lemma byte_val_byte_of x : byte_val (byte_of x) = (x mod 256)%Z.
Proof.
  unfold byte_val, byte_of.
  pose proof (Z.mod_pos_bound x 256 ltac:(lia)).
  rewrite N_ascii_embedding by lia. lia.
Qed.

Lemma byte_val_inj b b' : byte_val b = byte_val b' → b = b'.
Proof.
  unfold byte_val. intros H.
  rewrite <- (ascii_N_embedding b), <- (ascii_N_embedding b'). f_equal. lia.
Qed.

Lemma byte_of_byte_val b : byte_of (byte_val b) = b.
Proof.
  apply byte_val_inj. rewrite byte_val_byte_of.
  pose proof (byte_val_bounds b). apply Z.mod_small. lia.
Qed.

(** ** [strings.Index] and [strings.Split] on a one-byte separator *)
Module StringsFacts.
Import Strings.

Lemma HasPrefix_single c s :
  HasPrefix s [c] = match s with x :: _ => bool_decide (x = c) | [] => false end.
Proof.
  destruct s as [|x t]; [reflexivity|]. unfold HasPrefix. simpl.
  rewrite take_0. apply eq_true_iff_eq. rewrite !bool_decide_eq_true.
  split; congruence.
Qed.

Lemma HasPrefix_cons_inv s x p : HasPrefix s (x :: p) = true → head s = Some x.
Proof.
  unfold HasPrefix. destruct s as [|y t]; simpl; [discriminate|].
  rewrite andb_true_iff, bool_decide_eq_true. intros [_ H]. congruence.
Qed.

Lemma Index_single_cons c x t :
  Index (x :: t) [c] = if bool_decide (x = c) then Some 0 else S <$> Index t [c].
Proof. cbn [Index]. rewrite HasPrefix_single. reflexivity. Qed.

Lemma Index_single_Some c s m :
  Index s [c] = Some m → (c ∉ take m s) ∧ s !! m = Some c.
Proof.
  revert m. induction s as [|x t IH]; intros m; [discriminate|].
  rewrite Index_single_cons. case_bool_decide as Hx.
  - intros [= <-]. subst. split; [simpl; apply not_elem_of_nil | reflexivity].
  - destruct (Index t [c]) as [k|] eqn:E; [|discriminate].
    intros [= <-]. destruct (IH k eq_refl) as [H1 H2].
    split; [|exact H2]. simpl. rewrite not_elem_of_cons. split; [congruence | exact H1].
Qed.

Lemma Index_single_None c s : Index s [c] = None ↔ c ∉ s.
Proof.
  induction s as [|x t IH].
  - split; [intros _; apply not_elem_of_nil | reflexivity].
  - rewrite Index_single_cons, not_elem_of_cons. case_bool_decide as Hx.
    + split; [discriminate | intros [? _]; congruence].
    + destruct (Index t [c]) eqn:E; simpl.
      * split; [discriminate|]. intros [_ H]. apply IH in H. discriminate.
      * split; [|reflexivity]. intros _. split; [congruence | by apply IH].
Qed.

Lemma Contains_single c s : Contains s [c] = true ↔ c ∈ s.
Proof.
  unfold Contains. destruct (Index s [c]) as [m|] eqn:E.
  - split; [intros _ | reflexivity].
    apply Index_single_Some in E as [_ E]. by eapply list_elem_of_lookup_2.
  - apply Index_single_None in E. split; [discriminate | done].
Qed.

(** Whatever is found in [s] starts with a byte of [s]. *)
Lemma Contains_cons_inv s x p : Contains s (x :: p) = true → x ∈ s.
Proof.
  unfold Contains. induction s as [|y t IH]; cbn [Index].
  - unfold HasPrefix. simpl. discriminate.
  - destruct (HasPrefix (y :: t) (x :: p)) eqn:E.
    + intros _. apply HasPrefix_cons_inv in E. simpl in E.
      injection E as ->. apply list_elem_of_here.
    + destruct (Index t (x :: p)); simpl; [|discriminate].
      intros _. apply list_elem_of_further. by apply IH.
Qed.

Lemma delimited_single c s : c ∉ s → delimited c s [s].
Proof. intros H. split; [done|]. split; [done|]. by constructor. Qed.

Lemma delimited_cons c l s ls :
  c ∉ l → delimited c s ls → delimited c (l ++ c :: s) (l :: ls).
Proof.
  intros Hl (Hne & -> & Hall). split; [done|]. split.
  - destruct ls; [done | reflexivity].
  - by constructor.
Qed.

(** The pieces cut by [genSplit] are the delimited labels. *)
Lemma genSplit_delimited c fuel s :
  length s ≤ fuel → delimited c s (genSplit fuel s [c]).
Proof.
  revert s. induction fuel as [|fuel IH]; intros s Hlen.
  - destruct s; [|simpl in Hlen; lia]. apply delimited_single, not_elem_of_nil.
  - cbn [genSplit]. destruct (Index s [c]) as [m|] eqn:E.
    + apply Index_single_Some in E as [Hnot Hat].
      pose proof (lookup_lt_Some _ _ _ Hat) as Hm.
      rewrite <- (take_drop_middle s m c Hat) at 1.
      replace (m + length [c]) with (S m) by (simpl; lia).
      apply delimited_cons; [exact Hnot|]. apply IH.
      rewrite length_drop. lia.
    + apply delimited_single. by apply Index_single_None.
Qed.

Lemma first_cut_unique c (l l' r r' : gostring) :
  c ∉ l → c ∉ l' → l ++ c :: r = l' ++ c :: r' → l = l' ∧ r = r'.
Proof.
  revert l'. induction l as [|x l IH]; intros [|x' l'] H1 H2 Heq; simpl in *.
  - by injection Heq.
  - injection Heq as -> _. exfalso. apply H2. apply list_elem_of_here.
  - injection Heq as -> _. exfalso. apply H1. apply list_elem_of_here.
  - injection Heq as -> Heq.
    apply not_elem_of_cons in H1 as [_ H1]. apply not_elem_of_cons in H2 as [_ H2].
    destruct (IH l' H1 H2 Heq) as [-> ->]. done.
Qed.

Lemma delimited_unique c s ls ls' :
  delimited c s ls → delimited c s ls' → ls = ls'.
Proof.
  revert s ls'. induction ls as [|l ls IH]; intros s ls' (Hne & Hs & Hall) (Hne' & Hs' & Hall').
  - done.
  - destruct ls' as [|l' ls']; [done|].
    apply Forall_cons in Hall as [Hl Hall]. apply Forall_cons in Hall' as [Hl' Hall'].
    destruct ls as [|l2 ls]; destruct ls' as [|l2' ls']; simpl in Hs, Hs'.
    + congruence.
    + exfalso. apply Hl. rewrite <- Hs, Hs'. apply elem_of_app. right. apply list_elem_of_here.
    + exfalso. apply Hl'. rewrite <- Hs', Hs. apply elem_of_app. right. apply list_elem_of_here.
    + rewrite Hs in Hs'. apply first_cut_unique in Hs' as [-> Hrest]; [|done..].
      f_equal. apply (IH (join_with c (l2 :: ls))); [done|].
      split; [done|]. split; [exact Hrest | done].
Qed.

(** [strings.Split(name, ".")] yields exactly the delimited labels. *)
Lemma Split_delimited c s ls : delimited c s ls ↔ ls = Split s [c].
Proof.
  assert (delimited c s (Split s [c])) as H
    by (unfold Split; by apply genSplit_delimited).
  split; [intros H'; by eapply delimited_unique | by intros ->].
Qed.

End StringsFacts.

(** ** The model on sample inputs *)

Example IsHostname_irc_example_com :
  IsHostname simple_ToLower (str "irc.example.com") = true.
Proof. vm_compute. reflexivity. Qed.

Example IsHostname_leading_dash :
  IsHostname simple_ToLower (str "-bad.example.com") = false.
Proof. vm_compute. reflexivity. Qed.

Example IsHostname_nodothost :
  IsHostname simple_ToLower (str "nodothost") = false.
Proof. vm_compute. reflexivity. Qed.

Example IsHostname_upper :
  IsHostname simple_ToLower (str "IRC.Example.COM") = true.
Proof. vm_compute. reflexivity. Qed.

Example IsHostname_trailing_dot :
  IsHostname simple_ToLower (str "irc.example.com.") = false.
Proof. vm_compute. reflexivity. Qed.

(** The Kelvin sign (U+212A, bytes E2 84 AA) is lowered to "k" by
    [unicode.ToLower]: a name written with it passes the check on
    characters, which is made on the lowered runes. *)
Example IsHostname_kelvin_sign :
  IsHostname simple_ToLower
    (ascii_of_nat 226 :: ascii_of_nat 132 :: ascii_of_nat 170 :: str ".example.com")
  = true.
Proof. vm_compute. reflexivity. Qed.

(** Fifty labels "abcd" and a last label of three or four bytes: 253
    bytes pass, 254 do not. *)
Example IsHostname_253_bytes :
  IsHostname simple_ToLower (concat (replicate 50 (str "abcd.")) ++ str "abc")
  = true.
Proof. vm_compute. reflexivity. Qed.

Example IsHostname_254_bytes :
  IsHostname simple_ToLower (concat (replicate 50 (str "abcd.")) ++ str "abcd")
  = false.
Proof. vm_compute. reflexivity. Qed.

(** A label of 64 bytes. *)
Example IsHostname_long_label :
  IsHostname simple_ToLower (replicate 64 "a"%char ++ str ".example.com")
  = false.
Proof. vm_compute. reflexivity. Qed.

Example IsHostname_underscore :
  IsHostname simple_ToLower (str "irc_1.example.com") = false.
Proof. vm_compute. reflexivity. Qed.

Example SplitHostPort_tcp :
  Net.SplitHostPort (str "192.0.2.7:6667") = (str "192.0.2.7", str "6667", None).
Proof. vm_compute. reflexivity. Qed.

Example SplitHostPort_ipv6 :
  Net.SplitHostPort (str "[2001:db8::1]:6667")
  = (str "2001:db8::1", str "6667", None).
Proof. vm_compute. reflexivity. Qed.

Example SplitHostPort_no_port :
  Net.SplitHostPort (str "192.0.2.7")
  = ([], [], Some (str "address 192.0.2.7: missing port in address")).
Proof. vm_compute. reflexivity. Qed.

Example SplitHostPort_bare_ipv6 :
  (Net.SplitHostPort (str "2001:db8::1")).2
  = Some (str "address 2001:db8::1: too many colons in address").
Proof. vm_compute. reflexivity. Qed.

(** An answer without error and without name: [names[0]] panics. *)
Example AddrLookupHostname_empty_answer :
  AddrLookupHostname simple_ToLower sample_resolver_empty sample_tcp_addr
  = Panic.
Proof. vm_compute. reflexivity. Qed.

Example AddrLookupHostname_tcp :
  AddrLookupHostname simple_ToLower sample_resolver sample_tcp_addr
  = Done (str "irc.example.com").
Proof. vm_compute. reflexivity. Qed.

(** ** UTF-8 decoding *)
Module Utf8Facts.
Import Utf8.

Lemma first_ascii x : (x < 0x80)%Z → first x = FAscii.
Proof. intros H. unfold first. destruct (Z.ltb_spec x 0x80); [done | lia]. Qed.

Lemma first_not_ascii x : (0x80 ≤ x)%Z → first x ≠ FAscii.
Proof.
  intros H. unfold first.
  repeat match goal with
         | |- context [(?a <? ?b)%Z] => destruct (Z.ltb_spec a b); try lia
         | |- context [(?a =? ?b)%Z] => destruct (Z.eqb_spec a b)
         end; discriminate.
Qed.

(** A step of the decoder consumes at least one byte, never more than
    there are. *)
Lemma DecodeRuneInString_size s r n :
  s ≠ [] → DecodeRuneInString s = (r, n) → 1 ≤ n ≤ length s.
Proof.
  intros Hs. unfold DecodeRuneInString.
  destruct s as [|s0 t]; [done|]. clear Hs.
  destruct (first (byte_val s0)) as [| |sz lo hi].
  1,2: intros [= <- <-]; simpl; lia.
  destruct (length (s0 :: t) <? sz); [intros [= <- <-]; simpl; lia|].
  destruct t as [|s1 t1]; [intros [= <- <-]; simpl; lia|].
  destruct (negb (between lo hi s1)); [intros [= <- <-]; simpl; lia|].
  destruct (sz <=? 2); [intros [= <- <-]; simpl; lia|].
  destruct t1 as [|s2 t2]; [intros [= <- <-]; simpl; lia|].
  destruct (negb (between locb hicb s2)); [intros [= <- <-]; simpl; lia|].
  destruct (sz <=? 3); [intros [= <- <-]; simpl; lia|].
  destruct t2 as [|s3 t3]; [intros [= <- <-]; simpl; lia|].
  destruct (negb (between locb hicb s3)); intros [= <- <-]; simpl; lia.
Qed.

Lemma maskx_nonneg b : (0 ≤ maskx b)%Z.
Proof. unfold maskx. apply Z.land_nonneg. right. lia. Qed.

(** Decoded runes are never negative. *)
Lemma DecodeRuneInString_nonneg s : (0 ≤ (DecodeRuneInString s).1)%Z.
Proof.
  pose proof maskx_nonneg as Hm.
  assert (∀ b k, 0 ≤ Z.land (byte_val b) k)%Z as Hl
    by (intros; apply Z.land_nonneg; left; apply byte_val_bounds).
  assert (∀ a k, 0 ≤ a → 0 ≤ Z.shiftl a k)%Z as Hs
    by (intros; by apply Z.shiftl_nonneg).
  unfold DecodeRuneInString.
  repeat match goal with
         | |- context [match ?x with _ => _ end] => destruct x
         end; simpl; unfold RuneError; try lia;
    try apply byte_val_bounds;
    repeat (apply Z.lor_nonneg; split); auto.
Qed.

Lemma DecodeRuneInString_ascii s0 t :
  (byte_val s0 < 0x80)%Z → DecodeRuneInString (s0 :: t) = (byte_val s0, 1).
Proof. intros H. unfold DecodeRuneInString. by rewrite first_ascii. Qed.

Lemma decode_all_fuel fuel fuel' s :
  length s ≤ fuel → length s ≤ fuel' → decode_all fuel s = decode_all fuel' s.
Proof.
  revert fuel' s. induction fuel as [|fuel IH]; intros fuel' s H H'.
  - destruct s; [|simpl in H; lia]. by destruct fuel'.
  - destruct s as [|s0 t]; [by destruct fuel'|].
    destruct fuel' as [|fuel']; [simpl in H'; lia|].
    cbn [decode_all]. destruct (DecodeRuneInString (s0 :: t)) as [r n] eqn:E.
    apply DecodeRuneInString_size in E as Hn; [|done].
    f_equal. apply IH; rewrite length_drop; simpl in *; lia.
Qed.

(** One turn of the loop over a non-empty string. *)
Lemma decode_all_step s :
  s ≠ [] →
  decode_all (length s) s =
  ((DecodeRuneInString s).1, take (DecodeRuneInString s).2 s)
    :: decode_all (length (drop (DecodeRuneInString s).2 s))
                  (drop (DecodeRuneInString s).2 s).
Proof.
  intros Hs. destruct s as [|s0 t]; [done|].
  change (length (s0 :: t)) with (S (length t)) at 1. cbn [decode_all].
  destruct (DecodeRuneInString (s0 :: t)) as [r n] eqn:E.
  apply DecodeRuneInString_size in E as Hn; [|done].
  cbn [fst snd]. f_equal. apply decode_all_fuel; rewrite length_drop; simpl in *; lia.
Qed.

Lemma decode_all_ascii_cons s0 t :
  (byte_val s0 < 0x80)%Z →
  decode_all (length (s0 :: t)) (s0 :: t) =
  (byte_val s0, [s0]) :: decode_all (length t) t.
Proof.
  intros H. rewrite decode_all_step by done.
  rewrite DecodeRuneInString_ascii by done. reflexivity.
Qed.

(** On a string of ASCII bytes the runes are the bytes. *)
Lemma runes_ascii s :
  Forall (λ b, (byte_val b < 0x80)%Z) s → runes s = map byte_val s.
Proof.
  unfold runes. induction 1 as [|s0 t H _ IH]; [reflexivity|].
  rewrite decode_all_ascii_cons by done. simpl. by f_equal.
Qed.

(** A rune of two bytes or more, and the replacement character, are
    written with a leading byte outside ASCII. *)
Lemma byte_of_high base y :
  Z.testbit base 7 = true → (0x80 ≤ byte_val (byte_of (Z.lor base y)))%Z.
Proof.
  intros Hb. rewrite byte_val_byte_of.
  set (v := (Z.lor base y mod 256)%Z).
  assert (0 ≤ v < 256)%Z as Hv by (apply Z.mod_pos_bound; lia).
  assert (Z.testbit v 7 = true) as Ht.
  { unfold v. change 256%Z with (2 ^ 8)%Z.
    rewrite Z.mod_pow2_bits_low by lia. rewrite Z.lor_spec, Hb. reflexivity. }
  rewrite Z.testbit_true in Ht by lia.
  change (2 ^ 7)%Z with 128%Z in Ht.
  destruct (Z.lt_ge_cases v 128) as [Hlt|]; [|done].
  rewrite Z.div_small in Ht by lia. discriminate.
Qed.

Lemma EncodeRune_ascii r : (0 ≤ r ≤ 0x7F)%Z → EncodeRune r = [byte_of r].
Proof.
  intros H. unfold EncodeRune.
  destruct (Z.ltb_spec r 0); [lia|]. destruct (Z.leb_spec r 0x7F); [done | lia].
Qed.

Lemma EncodeRune_high r :
  ¬ (0 ≤ r ≤ 0x7F)%Z →
  ∃ b rest, EncodeRune r = b :: rest ∧ (0x80 ≤ byte_val b)%Z.
Proof.
  intros H. unfold EncodeRune, encode3.
  repeat match goal with
         | |- context [if ?c then _ else _] => destruct c eqn:?
         end;
    try (eexists _, _; split; [reflexivity | by apply byte_of_high]).
  lia.
Qed.

End Utf8Facts.

(** ** The allowed characters *)

Lemma allowed_runeb_spec r : allowed_runeb r = true ↔ allowed_rune r.
Proof. unfold allowed_runeb, allowed_rune. lia. Qed.

Lemma allowed_byte_rune b :
  bool_decide (b ∈ allowedHostnameChars) = allowed_runeb (byte_val b).
Proof. destruct b as [[] [] [] [] [] [] [] []]; vm_compute; reflexivity. Qed.

Lemma allowed_byte_iff b :
  b ∈ allowedHostnameChars ↔ allowed_rune (byte_val b).
Proof.
  rewrite <- allowed_runeb_spec, <- allowed_byte_rune.
  by rewrite bool_decide_eq_true.
Qed.

Lemma allowed_rune_ascii r : allowed_rune r → (0 ≤ r ≤ 0x7F)%Z.
Proof. unfold allowed_rune. lia. Qed.

Lemma lower_byte_val c :
  byte_val (Strings.lower_byte c) =
  if ((65 <=? byte_val c) && (byte_val c <=? 90))%Z
  then (byte_val c + 32)%Z else byte_val c.
Proof.
  unfold Strings.lower_byte, Strings.is_upper.
  change (byte_val (ascii_of_nat 65)) with 65%Z.
  change (byte_val (ascii_of_nat 90)) with 90%Z.
  destruct ((65 <=? byte_val c) && (byte_val c <=? 90))%Z eqn:E; [|reflexivity].
  rewrite byte_val_byte_of. apply Z.mod_small. lia.
Qed.

Lemma ascii_lowercase_lower_byte s : ascii_lowercase s = map Strings.lower_byte s.
Proof. reflexivity. Qed.

(** ** Every piece of [explode] against the allowed characters *)
Module ExplodeFacts.
Import Strings Utf8 StringsFacts Utf8Facts.

Lemma existsb_negb_false {A} (P : A → bool) l :
  existsb (λ x, negb (P x)) l = false ↔ forallb P l = true.
Proof.
  induction l as [|x l IH]; simpl; [done|].
  rewrite orb_false_iff, andb_true_iff, IH, negb_false_iff. done.
Qed.

Lemma forallb_Forall {A} (P : A → bool) l :
  forallb P l = true ↔ Forall (λ x, P x = true) l.
Proof.
  induction l as [|x l IH]; simpl; [split; [constructor | done]|].
  by rewrite andb_true_iff, Forall_cons, IH.
Qed.

Lemma explode_step s :
  s ≠ [] →
  explode s = take (DecodeRuneInString s).2 s
              :: explode (drop (DecodeRuneInString s).2 s).
Proof. intros H. unfold explode. by rewrite decode_all_step. Qed.

Lemma runes_step s :
  s ≠ [] →
  runes s = (DecodeRuneInString s).1 :: runes (drop (DecodeRuneInString s).2 s).
Proof. intros H. unfold runes. by rewrite decode_all_step. Qed.

Lemma drop_decoded_shorter s :
  s ≠ [] → length (drop (DecodeRuneInString s).2 s) < length s.
Proof.
  intros H. destruct (DecodeRuneInString s) as [r n] eqn:E.
  apply DecodeRuneInString_size in E; [|done].
  rewrite length_drop. simpl. destruct s; [done | simpl in *; lia].
Qed.

(** Induction along the runes of a string. *)
Lemma decode_ind (P : gostring → Prop) :
  P [] →
  (∀ s, s ≠ [] → P (drop (DecodeRuneInString s).2 s) → P s) →
  ∀ s, P s.
Proof.
  intros Hnil Hstep s.
  remember (length s) as n eqn:Hn. revert s Hn.
  induction n as [n IH] using lt_wf_ind. intros s ->.
  destruct s as [|s0 t]; [exact Hnil|].
  apply Hstep; [done|]. eapply IH; [|reflexivity].
  by apply drop_decoded_shorter.
Qed.

Lemma runes_nonneg s : Forall (λ r, 0 ≤ r)%Z (runes s).
Proof.
  induction s as [|s Hs IH] using decode_ind; [constructor|].
  rewrite runes_step by done. constructor; [|exact IH].
  apply DecodeRuneInString_nonneg.
Qed.

(** The check of the third loop of [IsHostname], byte by byte: a piece
    is found in the allowed characters only when it is one allowed
    byte. *)
Lemma explode_allowed s :
  forallb (Contains allowedHostnameChars) (explode s)
  = forallb (λ b, bool_decide (b ∈ allowedHostnameChars)) s.
Proof.
  induction s as [|s Hs IH] using decode_ind; [reflexivity|].
  rewrite explode_step by done. cbn [forallb]. rewrite IH. clear IH.
  destruct s as [|s0 t]; [done|]. clear Hs.
  destruct (Z.lt_ge_cases (byte_val s0) 0x80) as [Hlt|Hge].
  - rewrite DecodeRuneInString_ascii by done. cbn [snd take drop forallb].
    f_equal. apply eq_true_iff_eq.
    by rewrite Contains_single, bool_decide_eq_true.
  - destruct (DecodeRuneInString (s0 :: t)) as [r n] eqn:E.
    apply DecodeRuneInString_size in E as Hn; [|done].
    destruct n as [|n]; [lia|]. cbn [snd take forallb].
    assert (s0 ∉ allowedHostnameChars) as Hnot.
    { rewrite allowed_byte_iff. intros H%allowed_rune_ascii. lia. }
    rewrite (bool_decide_eq_false_2 _ Hnot).
    destruct (Contains allowedHostnameChars (s0 :: take n t)) eqn:Ec; [|done].
    by apply Contains_cons_inv in Ec.
Qed.

Lemma forallb_concat {A} (P : A → bool) (ls : list (list A)) :
  forallb P (concat ls) = forallb (forallb P) ls.
Proof.
  induction ls as [|l ls IH]; simpl; [done|].
  by rewrite forallb_app, IH.
Qed.

(** The bytes written for a rune are all allowed exactly when the rune
    is an allowed one. *)
Lemma EncodeRune_allowed r :
  forallb (λ b, bool_decide (b ∈ allowedHostnameChars)) (EncodeRune r) = true
  ↔ allowed_rune r.
Proof.
  destruct (decide (0 ≤ r ≤ 0x7F)%Z) as [Hr|Hr].
  - rewrite EncodeRune_ascii by done. cbn [forallb]. rewrite andb_true_r.
    rewrite bool_decide_eq_true, allowed_byte_iff, byte_val_byte_of.
    rewrite Z.mod_small by lia. done.
  - destruct (EncodeRune_high r Hr) as (b & rest & -> & Hb).
    cbn [forallb]. split.
    + rewrite andb_true_iff, bool_decide_eq_true, allowed_byte_iff.
      intros [H%allowed_rune_ascii _]. lia.
    + intros H%allowed_rune_ascii. lia.
Qed.

End ExplodeFacts.

(** ** [IsHostname] against the grammar *)
Section HostnameFacts.
Import Strings Utf8 StringsFacts Utf8Facts ExplodeFacts.

Variable unicode_ToLower : Z → Z.

(** What is used of [unicode.ToLower]: on ASCII it shifts the capital
    letters and leaves the rest, and it maps no rune to a negative
    value. *)
Hypothesis ToLower_ASCII : ∀ r, (0 ≤ r < 0x80)%Z →
  unicode_ToLower r = if ((65 <=? r) && (r <=? 90))%Z then (r + 32)%Z else r.
Hypothesis ToLower_nonneg : ∀ r, (0 ≤ r)%Z → (0 ≤ unicode_ToLower r)%Z.

Lemma ToLower_byte b :
  (byte_val b < 0x80)%Z → unicode_ToLower (byte_val b) = byte_val (lower_byte b).
Proof.
  intros H. pose proof (byte_val_bounds b).
  rewrite ToLower_ASCII by lia. by rewrite lower_byte_val.
Qed.

(** The third loop of [IsHostname] passes exactly when every rune of
    the name, lowered, is an allowed one. *)
Lemma chars_loop name :
  existsb (λ char, negb (Contains allowedHostnameChars char))
          (Split (ToLower unicode_ToLower name) []) = false
  ↔ Forall (λ r, allowed_rune (unicode_ToLower r)) (runes name).
Proof.
  rewrite existsb_negb_false. cbn [Split]. rewrite explode_allowed.
  unfold ToLower.
  destruct (forallb (λ c, (byte_val c <? RuneSelf)%Z) name) eqn:Hascii.
  - rewrite forallb_Forall in Hascii.
    assert (Forall (λ b, (byte_val b < 0x80)%Z) name) as Hall.
    { eapply Forall_impl; [exact Hascii|]. intros b Hb. unfold RuneSelf in Hb. simpl in Hb. lia. }
    rewrite runes_ascii by done.
    rewrite forallb_Forall, !Forall_fmap.
    clear Hascii. induction Hall as [|b t Hb _ IH].
    + split; constructor.
    + rewrite !Forall_cons, IH. simpl.
      rewrite bool_decide_eq_true, allowed_byte_iff, ToLower_byte by done. done.
  - clear Hascii. unfold Map. rewrite forallb_concat.
    pose proof (runes_nonneg name) as Hnn.
    induction Hnn as [|r rs Hr _ IH]; [split; constructor|].
    cbn [map forallb]. rewrite andb_true_iff, IH, Forall_cons.
    cbn zeta. pose proof (ToLower_nonneg r Hr).
    destruct (Z.ltb_spec (unicode_ToLower r) 0); [lia|].
    by rewrite EncodeRune_allowed.
Qed.

(** On a name of ASCII bytes the rule on characters reads: every byte
    is one of [A-Za-z0-9.-]. *)
Lemma chars_rule_ascii name :
  Forall (λ b, (byte_val b < 0x80)%Z) name →
  Forall (λ r, allowed_rune (unicode_ToLower r)) (runes name)
  ↔ Forall hostname_byte name.
Proof.
  intros Hall. rewrite runes_ascii by done. rewrite Forall_fmap.
  induction Hall as [|b t Hb _ IH]; [split; constructor|].
  rewrite !Forall_cons, IH. simpl.
  assert (allowed_rune (unicode_ToLower (byte_val b)) ↔ hostname_byte b) as ->;
    [|done].
  pose proof (byte_val_bounds b) as Hr.
  rewrite ToLower_ASCII by lia. unfold hostname_byte, letter, allowed_rune.
  assert (b = "."%char ↔ byte_val b = 46%Z) as ->
    by (split; [by intros -> | intros H; by apply byte_val_inj]).
  assert (b = "-"%char ↔ byte_val b = 45%Z) as ->
    by (split; [by intros -> | intros H; by apply byte_val_inj]).
  destruct ((65 <=? byte_val b) && (byte_val b <=? 90))%Z eqn:E; lia.
Qed.

Lemma HasPrefix_head c s : HasPrefix s [c] = true ↔ head s = Some c.
Proof.
  rewrite HasPrefix_single. destruct s as [|x t]; simpl; [done|].
  rewrite bool_decide_eq_true. split; congruence.
Qed.

Lemma HasSuffix_last c s : HasSuffix s [c] = true ↔ last s = Some c.
Proof.
  unfold HasSuffix. destruct s as [|x l _] using rev_ind; [done|].
  rewrite length_app, last_snoc. cbn [length].
  replace (length l + 1 - 1) with (length l) by lia.
  rewrite drop_app_length, andb_true_iff, bool_decide_eq_true.
  split; [intros [_ ?]; congruence | intros [= ->]; split; [|done]].
  apply Nat.leb_le. lia.
Qed.

(** The test of the second loop of [IsHostname] on one part. *)
Lemma part_test part :
  (length part <? 1) || (63 <? length part)
  || HasPrefix part (str "-") || HasSuffix part (str "-") = false
  ↔ label_ok part.
Proof.
  unfold label_ok. change (str "-") with ["-"%char].
  rewrite !orb_false_iff, !Nat.ltb_ge.
  rewrite <- !not_true_iff_false, HasPrefix_head, HasSuffix_last.
  intuition lia.
Qed.

Lemma parts_loop name :
  existsb (λ part, (length part <? 1) || (63 <? length part)
                   || HasPrefix part (str "-") || HasSuffix part (str "-"))
          (Split name (str ".")) = false
  ↔ ∀ ls, delimited "." name ls → Forall label_ok ls.
Proof.
  change (str ".") with ["."%char].
  transitivity (Forall label_ok (Split name ["."%char])).
  - induction (Split name ["."%char]) as [|p ps IH]; cbn [existsb].
    + split; [constructor | done].
    + rewrite orb_false_iff, Forall_cons, IH, part_test. done.
  - split.
    + intros H ls Hls. apply Split_delimited in Hls. by subst.
    + intros H. apply H. by apply Split_delimited.
Qed.

Lemma IsHostname_spec name :
  IsHostname unicode_ToLower name = true ↔ hostname_spec unicode_ToLower name.
Proof.
  unfold IsHostname, hostname_spec.
  rewrite <- parts_loop, <- chars_loop.
  rewrite <- (Contains_single "." name). change ["."%char] with (str ".").
  destruct (Contains name (str ".")); cbn [negb orb];
    [|split; [discriminate | intros (_ & ? & _); discriminate]].
  destruct (Nat.ltb_spec (length name) 1); cbn [orb];
    [split; [discriminate | lia]|].
  destruct (Nat.ltb_spec 253 (length name)); cbn [orb];
    [split; [discriminate | lia]|].
  destruct (existsb _ (Split name (str "."))); 
    [split; [discriminate | intros (_ & _ & ? & _); discriminate]|].
  destruct (existsb _ (Split (ToLower unicode_ToLower name) []));
    [split; [discriminate | intros (_ & _ & _ & ?); discriminate]|].
  split; [intros _; repeat split; (lia || done) | done].
Qed.

Lemma IsHostname_no_dot name :
  "."%char ∉ name → IsHostname unicode_ToLower name = false.
Proof.
  intros H. apply not_true_iff_false. rewrite IsHostname_spec.
  intros (_ & ? & _). done.
Qed.

End HostnameFacts.

(** ** ASCII lowering and the checks of [IsHostname] *)
Module LowerFacts.
Import Strings Utf8 StringsFacts Utf8Facts ExplodeFacts.

Lemma lower_byte_other b c : ¬ letter c → lower_byte b = c ↔ b = c.
Proof.
  unfold letter. intros Hc. split.
  - intros <-. rewrite lower_byte_val in Hc. apply byte_val_inj.
    rewrite lower_byte_val.
    destruct ((65 <=? byte_val b) && (byte_val b <=? 90))%Z eqn:E; [lia | done].
  - intros ->. apply byte_val_inj. rewrite lower_byte_val.
    destruct ((65 <=? byte_val c) && (byte_val c <=? 90))%Z eqn:E; [lia | done].
Qed.

Lemma lower_byte_high b : (0x80 ≤ byte_val b)%Z → lower_byte b = b.
Proof.
  intros H. apply byte_val_inj. rewrite lower_byte_val.
  destruct ((65 <=? byte_val b) && (byte_val b <=? 90))%Z eqn:E; [lia | done].
Qed.

Lemma lower_byte_low b : (byte_val b < 0x80)%Z → (byte_val (lower_byte b) < 0x80)%Z.
Proof.
  intros H. rewrite lower_byte_val.
  destruct ((65 <=? byte_val b) && (byte_val b <=? 90))%Z eqn:E; lia.
Qed.

Lemma dot_not_letter : ¬ letter "."%char.
Proof. unfold letter. vm_compute. intuition congruence. Qed.

Lemma dash_not_letter : ¬ letter "-"%char.
Proof. unfold letter. vm_compute. intuition congruence. Qed.

Lemma Index_lower c s :
  ¬ letter c → Index (map lower_byte s) [c] = Index s [c].
Proof.
  intros Hc. induction s as [|x t IH]; [reflexivity|].
  cbn [map]. rewrite !Index_single_cons, IH.
  by rewrite (bool_decide_ext _ _ (lower_byte_other x c Hc)).
Qed.

Lemma genSplit_lower c fuel s :
  ¬ letter c →
  genSplit fuel (map lower_byte s) [c] = map (map lower_byte) (genSplit fuel s [c]).
Proof.
  intros Hc. revert s. induction fuel as [|fuel IH]; intros s; [reflexivity|].
  cbn [genSplit]. rewrite Index_lower by done.
  destruct (Index s [c]) as [m|]; [|reflexivity].
  cbn [map]. change (map lower_byte) with (fmap (M:=list) lower_byte).
  by rewrite <- fmap_take, <- fmap_drop, IH.
Qed.

Lemma label_ok_lower l : label_ok (map lower_byte l) ↔ label_ok l.
Proof.
  unfold label_ok. rewrite length_map.
  assert (∀ o : option ascii,
            lower_byte <$> o = Some "-"%char ↔ o = Some "-"%char) as Ho.
  { intros [x|]; simpl; [|done].
    split; intros [= H]; f_equal; by apply (lower_byte_other x _ dash_not_letter). }
  change (map lower_byte l) with (lower_byte <$> l).
  rewrite fmap_last.
  replace (head (lower_byte <$> l)) with (lower_byte <$> head l) by (by destruct l).
  by rewrite !Ho.
Qed.

Lemma first_lead_lo x sz lo hi : first x = FLead sz lo hi → (0x80 ≤ lo)%Z.
Proof.
  unfold first.
  repeat match goal with
         | |- context [if ?c then _ else _] => destruct c
         end; intros [= <- <- <-] || discriminate; lia.
Qed.

(** A continuation byte is never a capital letter. *)
Lemma between_lower lo hi b :
  (0x80 ≤ lo)%Z →
  between lo hi (lower_byte b) = between lo hi b
  ∧ (between lo hi b = true → lower_byte b = b).
Proof.
  intros Hlo. unfold between.
  destruct (Z.lt_ge_cases (byte_val b) 0x80) as [Hb|Hb].
  - pose proof (lower_byte_low b Hb). split; [|lia].
    apply eq_true_iff_eq. lia.
  - rewrite lower_byte_high by done. done.
Qed.

(** Lowering the ASCII bytes of a string changes neither the width of
    its first rune nor, outside ASCII, the rune. *)
Lemma DecodeRuneInString_lower s0 t :
  DecodeRuneInString (map lower_byte (s0 :: t)) =
  if (byte_val s0 <? 0x80)%Z then (byte_val (lower_byte s0), 1)
  else DecodeRuneInString (s0 :: t).
Proof.
  destruct (Z.ltb_spec (byte_val s0) 0x80) as [Hb|Hb].
  - cbn [map]. apply DecodeRuneInString_ascii. by apply lower_byte_low.
  - cbn [map]. rewrite (lower_byte_high s0 Hb). unfold DecodeRuneInString.
    destruct (first (byte_val s0)) as [| |sz lo hi] eqn:Ef; [done..|].
    apply first_lead_lo in Ef.
    cbn [length]. rewrite length_map.
    destruct (S (length t) <? sz); [done|].
    destruct t as [|s1 t1]; [done|]. cbn [map].
    destruct (between_lower lo hi s1 Ef) as [-> H1].
    destruct (between lo hi s1); [rewrite H1 by done | done]. cbn [negb].
    destruct (sz <=? 2); [done|].
    destruct t1 as [|s2 t2]; [done|]. cbn [map].
    destruct (between_lower locb hicb s2 ltac:(unfold locb; lia)) as [-> H2].
    destruct (between locb hicb s2); [rewrite H2 by done | done]. cbn [negb].
    destruct (sz <=? 3); [done|].
    destruct t2 as [|s3 t3]; [done|]. cbn [map].
    destruct (between_lower locb hicb s3 ltac:(unfold locb; lia)) as [-> H3].
    destruct (between locb hicb s3); [rewrite H3 by done | done]. done.
Qed.

(** A property of runes that does not tell a capital ASCII letter from
    its small letter holds of the runes of a string and of those of
    its lowered form alike. *)
Lemma runes_lower (P : Z → Prop) s :
  (∀ b, (byte_val b < 0x80)%Z → P (byte_val (lower_byte b)) ↔ P (byte_val b)) →
  Forall P (runes (map lower_byte s)) ↔ Forall P (runes s).
Proof.
  intros HP. induction s as [|s Hs IH] using decode_ind; [done|].
  destruct s as [|s0 t]; [done|]. clear Hs.
  rewrite (runes_step (s0 :: t)) by done.
  rewrite (runes_step (map lower_byte (s0 :: t))) by done.
  rewrite DecodeRuneInString_lower.
  destruct (Z.ltb_spec (byte_val s0) 0x80) as [Hb|Hb].
  - rewrite DecodeRuneInString_ascii in IH |- * by done.
    cbn [fst snd map drop] in IH |- *.
    by rewrite !Forall_cons, IH, HP.
  - change (map lower_byte (s0 :: t)) with (lower_byte <$> (s0 :: t)).
    rewrite <- fmap_drop. change (fmap lower_byte) with (map lower_byte).
    by rewrite !Forall_cons, IH.
Qed.

End LowerFacts.

Section LowercaseInvariance.
Import Strings Utf8 StringsFacts Utf8Facts ExplodeFacts LowerFacts.

Variable unicode_ToLower : Z → Z.
Hypothesis ToLower_ASCII : ∀ r, (0 ≤ r < 0x80)%Z →
  unicode_ToLower r = if ((65 <=? r) && (r <=? 90))%Z then (r + 32)%Z else r.

Lemma ToLower_lower_byte b :
  (byte_val b < 0x80)%Z →
  unicode_ToLower (byte_val (lower_byte b)) = unicode_ToLower (byte_val b).
Proof.
  intros Hb. pose proof (byte_val_bounds b) as Hr.
  pose proof (byte_val_bounds (lower_byte b)) as Hr'.
  pose proof (lower_byte_low b Hb) as Hl.
  rewrite !ToLower_ASCII by lia. rewrite lower_byte_val.
  destruct ((65 <=? byte_val b) && (byte_val b <=? 90))%Z eqn:E; [|by rewrite E].
  destruct ((65 <=? byte_val b + 32) && (byte_val b + 32 <=? 90))%Z eqn:E'; lia.
Qed.

Lemma hostname_spec_lowercase name :
  hostname_spec unicode_ToLower (ascii_lowercase name)
  ↔ hostname_spec unicode_ToLower name.
Proof.
  rewrite ascii_lowercase_lower_byte. unfold hostname_spec.
  rewrite length_map.
  assert ("."%char ∈ map lower_byte name ↔ "."%char ∈ name) as ->.
  { rewrite <- !Contains_single. unfold Contains.
    by rewrite (Index_lower _ _ dot_not_letter). }
  assert ((∀ ls, delimited "." (map lower_byte name) ls → Forall label_ok ls)
          ↔ (∀ ls, delimited "." name ls → Forall label_ok ls)) as ->.
  { transitivity (Forall label_ok (Split name ["."%char])).
    - transitivity (Forall label_ok (Split (map lower_byte name) ["."%char])).
      + split.
        * intros H. apply H. by apply Split_delimited.
        * intros H ls Hls. apply Split_delimited in Hls. by subst.
      + unfold Split. rewrite length_map, (genSplit_lower _ _ _ dot_not_letter).
        change (map (map lower_byte)) with (fmap (M:=list) (map lower_byte)).
        rewrite Forall_fmap. apply Forall_proper; [|done].
        intros l. apply label_ok_lower.
    - split.
      + intros H ls Hls. apply Split_delimited in Hls. by subst.
      + intros H. apply H. by apply Split_delimited. }
  rewrite (runes_lower (λ r, allowed_rune (unicode_ToLower r))); [done|].
  intros b Hb. by rewrite ToLower_lower_byte.
Qed.

End LowercaseInvariance.

(** ** Claims on [IsHostname] *)

(** C3. For every name, [IsHostname] answers true exactly when the
    four rules hold: the length is between 1 and 253; the name contains
    a "."; every "."-delimited label has between 1 and 63 bytes and
    neither starts nor ends with "-"; and every character, once
    lowered, is one of [a-z0-9.-].  In particular a name without "." is
    refused.  Of [unicode.ToLower] the proof uses that on ASCII it
    shifts the capital letters and nothing else, and that it yields no
    negative rune. *)
Theorem IsHostname_grammar (unicode_ToLower : Z → Z) :
  (∀ r, (0 ≤ r < 0x80)%Z →
        unicode_ToLower r
        = if ((65 <=? r) && (r <=? 90))%Z then (r + 32)%Z else r) →
  (∀ r, (0 ≤ r)%Z → (0 ≤ unicode_ToLower r)%Z) →
  ∀ name,
    (IsHostname unicode_ToLower name = true
     ↔ hostname_spec unicode_ToLower name)
    ∧ ("."%char ∉ name → IsHostname unicode_ToLower name = false).
Proof.
  intros H1 H2 name. split.
  - by apply IsHostname_spec.
  - by apply IsHostname_no_dot.
Qed.

Lemma simple_ToLower_ASCII r :
  (0 ≤ r < 0x80)%Z →
  simple_ToLower r = if ((65 <=? r) && (r <=? 90))%Z then (r + 32)%Z else r.
Proof.
  intros H. unfold simple_ToLower.
  destruct ((65 <=? r) && (r <=? 90))%Z; [done|].
  destruct (Z.eqb_spec r 0x130); [lia|]. destruct (Z.eqb_spec r 0x212A); [lia | done].
Qed.

Lemma simple_ToLower_nonneg r : (0 ≤ r)%Z → (0 ≤ simple_ToLower r)%Z.
Proof.
  intros H. unfold simple_ToLower.
  destruct ((65 <=? r) && (r <=? 90))%Z; [lia|].
  destruct (r =? 0x130)%Z; [lia|]. destruct (r =? 0x212A)%Z; lia.
Qed.

Lemma IsHostname_grammar_witness :
  (∀ r, (0 ≤ r < 0x80)%Z →
        simple_ToLower r
        = if ((65 <=? r) && (r <=? 90))%Z then (r + 32)%Z else r)
  ∧ (∀ r, (0 ≤ r)%Z → (0 ≤ simple_ToLower r)%Z)
  ∧ ((IsHostname simple_ToLower (str "irc.example.com") = true
      ↔ hostname_spec simple_ToLower (str "irc.example.com"))
     ∧ ("."%char ∉ str "irc.example.com"
        → IsHostname simple_ToLower (str "irc.example.com") = false)).
Proof.
  split; [exact simple_ToLower_ASCII|].
  split; [exact simple_ToLower_nonneg|].
  exact (IsHostname_grammar simple_ToLower simple_ToLower_ASCII
           simple_ToLower_nonneg (str "irc.example.com")).
Defined.

(** C9. [IsHostname] gives the same answer on a name and on its
    ASCII-lowercased form, under the same two facts about
    [unicode.ToLower] as above. *)
Theorem IsHostname_ascii_lowercase (unicode_ToLower : Z → Z) :
  (∀ r, (0 ≤ r < 0x80)%Z →
        unicode_ToLower r
        = if ((65 <=? r) && (r <=? 90))%Z then (r + 32)%Z else r) →
  (∀ r, (0 ≤ r)%Z → (0 ≤ unicode_ToLower r)%Z) →
  ∀ name,
    IsHostname unicode_ToLower (ascii_lowercase name)
    = IsHostname unicode_ToLower name.
Proof.
  intros H1 H2 name. apply eq_true_iff_eq.
  rewrite !IsHostname_spec by done. by apply hostname_spec_lowercase.
Qed.

Lemma IsHostname_ascii_lowercase_witness :
  (∀ r, (0 ≤ r < 0x80)%Z →
        simple_ToLower r
        = if ((65 <=? r) && (r <=? 90))%Z then (r + 32)%Z else r)
  ∧ (∀ r, (0 ≤ r)%Z → (0 ≤ simple_ToLower r)%Z)
  ∧ IsHostname simple_ToLower (ascii_lowercase (str "IRC.Example.COM"))
    = IsHostname simple_ToLower (str "IRC.Example.COM").
Proof.
  split; [exact simple_ToLower_ASCII|].
  split; [exact simple_ToLower_nonneg|].
  exact (IsHostname_ascii_lowercase simple_ToLower simple_ToLower_ASCII
           simple_ToLower_nonneg (str "IRC.Example.COM")).
Defined.

(** ** Address resolution *)
Section ResolverFacts.

Variable unicode_ToLower : Z → Z.
Variable net_LookupAddr : gostring → list gostring * option error.




(** A lookup that succeeds with no name at all is not provided for:
    [names[0]] is out of range. *)
Lemma LookupHostname_no_candidates addr :
  net_LookupAddr addr = ([], None) →
  LookupHostname unicode_ToLower net_LookupAddr addr = Panic.
Proof. intros H. unfold LookupHostname. by rewrite H. Qed.

End ResolverFacts.



(** ** The loader *)

(** The error of [first_violation] is that of the earliest check that
    does not hold. *)
Lemma find_earliest (l : list (bool * error)) i e :
  l !! i = Some (false, e) →
  (∀ j b e', j < i → l !! j = Some (b, e') → b = true) →
  find (λ p : bool * error, negb p.1) l = Some (false, e).
Proof.
  revert i. induction l as [|[b e'] l IH]; intros i Hi Hbefore; [done|].
  destruct i as [|i].
  - injection Hi as -> ->. reflexivity.
  - cbn [find fst]. rewrite (Hbefore 0 b e') by (done || lia). cbn [negb].
    apply (IH i); [done|]. intros j b' e'' Hj Hl.
    apply (Hbefore (S j) b' e''); [lia | done].
Qed.

Lemma find_none (l : list (bool * error)) :
  find (λ p : bool * error, negb p.1) l = None ↔ Forall (λ p, p.1 = true) l.
Proof.
  induction l as [|[b e] l IH]; cbn [find fst].
  - split; [constructor | done].
  - rewrite Forall_cons. destruct b; cbn [negb fst].
    + rewrite IH. split; [done | by intros [_ ?]].
    + split; [discriminate | intros [? _]; discriminate].
Qed.

Section LoaderFacts.

Variable ioutil_ReadFile : gostring → gostring * option error.
Variable yaml_Unmarshal : gostring → option Config * option error.
Variable unicode_ToLower : Z → Z.

Local Abbreviation load :=
  (LoadConfig ioutil_ReadFile yaml_Unmarshal unicode_ToLower).

Lemma normalize_spec c :
  normalize c = if negb (is_empty (Password (Server c)))
                then set_PassConfig_Password c else c.
Proof. unfold normalize. by destruct (Password (Server c)). Qed.

(** The checks read nothing that the normalization writes. *)
Lemma invariants_normalize c : invariants unicode_ToLower (normalize c) = invariants unicode_ToLower c.
Proof. unfold normalize. by destruct (Password (Server c)). Qed.

Lemma first_violation_normalize c :
  first_violation unicode_ToLower (normalize c)
  = first_violation unicode_ToLower c.
Proof. unfold first_violation. by rewrite invariants_normalize. Qed.

Lemma limits_test c :
  ((NickLen (Limits c) <? 1) || (ChannelLen (Limits c) <? 2)
   || (AwayLen (Limits c) <? 1) || (TopicLen (Limits c) <? 1)
   || (TopicLen (Limits c) <? 1))%Z
  = negb (limits_in_bounds c).
Proof. unfold limits_in_bounds. apply eq_true_iff_eq. rewrite negb_true_iff. lia. Qed.

Lemma LoadConfig_read_error filename data e :
  ioutil_ReadFile filename = (data, Some e) →
  load filename = Done (None, Some e).
Proof. intros H. unfold LoadConfig. by rewrite H. Qed.

Lemma LoadConfig_parse_error filename data config e :
  ioutil_ReadFile filename = (data, None) →
  yaml_Unmarshal data = (config, Some e) →
  load filename = Done (None, Some e).
Proof. intros H H'. unfold LoadConfig. by rewrite H, H'. Qed.

(** A document that deserializes to nothing leaves [config] nil. *)
Lemma LoadConfig_nil filename data :
  ioutil_ReadFile filename = (data, None) →
  yaml_Unmarshal data = (None, None) →
  load filename = Panic.
Proof. intros H H'. unfold LoadConfig. by rewrite H, H'. Qed.

(** After reading and parsing, the loader normalizes and checks. *)
Lemma LoadConfig_parsed filename data c0 :
  ioutil_ReadFile filename = (data, None) →
  yaml_Unmarshal data = (Some c0, None) →
  load filename = Done (checked unicode_ToLower (normalize c0)).
Proof.
  intros H H'. unfold LoadConfig. rewrite H, H', <- normalize_spec.
  generalize (normalize c0). intros c. rewrite limits_test.
  unfold checked, first_violation, invariants. cbn [find fst].
  destruct (is_empty (Network_Name c)); [done|].
  destruct (is_empty (Name (Server c))); [done|].
  destruct (IsHostname unicode_ToLower (Name (Server c))); [|done].
  destruct (is_empty (Datastore_Path c)); [done|].
  destruct (length (Listen (Server c)) =? 0); [done|].
  destruct (limits_in_bounds c); done.
Qed.

(** The outcomes of the loader, all of them. *)
Lemma LoadConfig_cases filename :
  (∃ data e, ioutil_ReadFile filename = (data, Some e)
             ∧ load filename = Done (None, Some e))
  ∨ (∃ data config e, ioutil_ReadFile filename = (data, None)
                      ∧ yaml_Unmarshal data = (config, Some e)
                      ∧ load filename = Done (None, Some e))
  ∨ (∃ data, ioutil_ReadFile filename = (data, None)
             ∧ yaml_Unmarshal data = (None, None)
             ∧ load filename = Panic)
  ∨ (∃ data c0, ioutil_ReadFile filename = (data, None)
                ∧ yaml_Unmarshal data = (Some c0, None)
                ∧ load filename = Done (checked unicode_ToLower (normalize c0))).
Proof.
  destruct (ioutil_ReadFile filename) as [data [e|]] eqn:Hr.
  { left. exists data, e. split; [done|]. by eapply LoadConfig_read_error. }
  destruct (yaml_Unmarshal data) as [config [e|]] eqn:Hp.
  { right; left. exists data, config, e. repeat split; [done..|].
    by eapply LoadConfig_parse_error. }
  destruct config as [c0|].
  - right; right; right. exists data, c0. repeat split; [done..|].
    by eapply LoadConfig_parsed.
  - right; right; left. exists data. repeat split; [done..|].
    by eapply LoadConfig_nil.
Qed.

End LoaderFacts.

(** ** Claims on [LoadConfig] *)

(** X19. For a document that deserializes to an aggregate, the loader
    runs the six checks in their order (network name, server name,
    hostname format, datastore path, listening addresses, limits) and
    stops at the first that fails: whichever checks fail together, the
    error returned is that of the earliest of them. *)
Theorem LoadConfig_reports_earliest_violation
    (ioutil_ReadFile : gostring → gostring * option error)
    (yaml_Unmarshal : gostring → option Config * option error)
    (unicode_ToLower : Z → Z) (filename data : gostring) (c0 : Config) :
  ioutil_ReadFile filename = (data, None) →
  yaml_Unmarshal data = (Some c0, None) →
  (∀ i e,
     invariants unicode_ToLower c0 !! i = Some (false, e) →
     (∀ j b e', j < i → invariants unicode_ToLower c0 !! j = Some (b, e') →
                b = true) →
     LoadConfig ioutil_ReadFile yaml_Unmarshal unicode_ToLower filename
     = Done (None, Some e))
  ∧ (Forall (λ p, p.1 = true) (invariants unicode_ToLower c0) →
     LoadConfig ioutil_ReadFile yaml_Unmarshal unicode_ToLower filename
     = Done (Some (normalize c0), None)).
Proof.
  intros Hr Hp. rewrite (LoadConfig_parsed _ _ _ _ _ _ Hr Hp).
  unfold checked. rewrite first_violation_normalize. unfold first_violation.
  split.
  - intros i e Hi Hbefore. by rewrite (find_earliest _ i e Hi Hbefore).
  - intros Hall. apply find_none in Hall. by rewrite Hall.
Qed.

Lemma LoadConfig_reports_earliest_violation_witness :
  sample_ReadFile (str "ircd.yaml") = (str "network: ...", None)
  ∧ sample_Unmarshal_broken (str "network: ...")
    = (Some sample_broken_config, None)
  ∧ ((∀ i e,
        invariants simple_ToLower sample_broken_config !! i = Some (false, e) →
        (∀ j b e', j < i →
           invariants simple_ToLower sample_broken_config !! j = Some (b, e') →
           b = true) →
        LoadConfig sample_ReadFile sample_Unmarshal_broken simple_ToLower
          (str "ircd.yaml")
        = Done (None, Some e))
     ∧ (Forall (λ p, p.1 = true) (invariants simple_ToLower sample_broken_config) →
        LoadConfig sample_ReadFile sample_Unmarshal_broken simple_ToLower
          (str "ircd.yaml")
        = Done (Some (normalize sample_broken_config), None))).
Proof.
  split; [reflexivity|]. split; [reflexivity|].
  exact (LoadConfig_reports_earliest_violation
           sample_ReadFile sample_Unmarshal_broken simple_ToLower
           (str "ircd.yaml") (str "network: ...") sample_broken_config
           eq_refl eq_refl).
Defined.

(** The broken sample fails three checks; the first is reported. *)
Example LoadConfig_broken :
  LoadConfig sample_ReadFile sample_Unmarshal_broken simple_ToLower
    (str "ircd.yaml")
  = Done (None, Some (str "Network name missing")).
Proof. vm_compute. reflexivity. Qed.

Example LoadConfig_sample :
  LoadConfig sample_ReadFile sample_Unmarshal simple_ToLower (str "ircd.yaml")
  = Done (Some (set_PassConfig_Password sample_config), None).
Proof. vm_compute. reflexivity. Qed.

Lemma limits_in_bounds_spec c :
  limits_in_bounds c = false ↔ limits_out_of_bounds c.
Proof.
  unfold limits_in_bounds, limits_out_of_bounds.
  rewrite !andb_false_iff, !Z.leb_gt. lia.
Qed.

Lemma is_empty_false s : is_empty s = false ↔ s ≠ [].
Proof. by destruct s. Qed.

(** C4. Once the five other invariants hold, loading fails exactly
    when NickLen < 1, ChannelLen < 2, AwayLen < 1 or TopicLen < 1, and
    succeeds otherwise, whatever the value [k] of KickLen. *)
Theorem LoadConfig_limits
    (ioutil_ReadFile : gostring → gostring * option error)
    (yaml_Unmarshal : gostring → option Config * option error)
    (unicode_ToLower : Z → Z) (filename data : gostring)
    (c : Config) (k : Z) :
  ioutil_ReadFile filename = (data, None) →
  yaml_Unmarshal data = (Some (with_KickLen k c), None) →
  other_invariants unicode_ToLower c →
  (LoadConfig ioutil_ReadFile yaml_Unmarshal unicode_ToLower filename
   = Done (None, Some limits_error)
   ↔ limits_out_of_bounds c)
  ∧ (¬ limits_out_of_bounds c →
     LoadConfig ioutil_ReadFile yaml_Unmarshal unicode_ToLower filename
     = Done (Some (normalize (with_KickLen k c)), None)).
Proof.
  intros Hr Hp (H1 & H2 & H3 & H4 & H5).
  rewrite (LoadConfig_parsed _ _ _ _ _ _ Hr Hp).
  unfold checked. rewrite first_violation_normalize.
  unfold first_violation, invariants. cbn [find fst].
  change (Network_Name (with_KickLen k c)) with (Network_Name c).
  change (Server (with_KickLen k c)) with (Server c).
  change (Datastore_Path (with_KickLen k c)) with (Datastore_Path c).
  change (limits_in_bounds (with_KickLen k c)) with (limits_in_bounds c).
  apply is_empty_false in H1, H2, H4. rewrite H1, H2, H3, H4. cbn [negb].
  destruct (Listen (Server c)) as [|l ls] eqn:El; [done|]. cbn [length Nat.eqb negb].
  rewrite <- limits_in_bounds_spec.
  destruct (limits_in_bounds c); cbn [negb fmap option_fmap option_map snd].
  - split; [split; discriminate | done].
  - split; [done | intros []; done].
Qed.

Lemma LoadConfig_limits_witness :
  sample_ReadFile (str "ircd.yaml") = (str "network: ...", None)
  ∧ sample_Unmarshal (str "network: ...")
    = (Some (with_KickLen 390 sample_config), None)
  ∧ other_invariants simple_ToLower sample_config
  ∧ ((LoadConfig sample_ReadFile sample_Unmarshal simple_ToLower (str "ircd.yaml")
      = Done (None, Some limits_error)
      ↔ limits_out_of_bounds sample_config)
     ∧ (¬ limits_out_of_bounds sample_config →
        LoadConfig sample_ReadFile sample_Unmarshal simple_ToLower (str "ircd.yaml")
        = Done (Some (normalize (with_KickLen 390 sample_config)), None))).
Proof.
  assert (other_invariants simple_ToLower sample_config) as Hother.
  { unfold other_invariants. vm_compute. repeat split; discriminate. }
  split; [reflexivity|]. split; [reflexivity|]. split; [exact Hother|].
  exact (LoadConfig_limits sample_ReadFile sample_Unmarshal simple_ToLower
           (str "ircd.yaml") (str "network: ...") sample_config 390
           eq_refl eq_refl Hother).
Defined.

Lemma normalize_same c0 : same_but_nested_password c0 (normalize c0).
Proof.
  unfold normalize. destruct (Password (Server c0)) eqn:E; repeat split; done.
Qed.

Lemma normalize_nested c0 :
  PassConfig_Password (Server_PassConfig (Server (normalize c0)))
  = match Password (Server c0) with
    | [] => PassConfig_Password (Server_PassConfig (Server c0))
    | _ :: _ => Password (Server c0)
    end.
Proof. unfold normalize. by destruct (Password (Server c0)) eqn:E. Qed.

Lemma checked_Some lower c c' e :
  checked lower c = (Some c', e) → c' = c ∧ e = None ∧ first_violation lower c = None.
Proof.
  unfold checked. destruct (first_violation lower c); [discriminate|].
  by intros [= <- <-].
Qed.

(** C7. Between parsing and checking the loader changes one thing: a
    non-empty flat [Server.Password] is copied to the nested
    [Server.PassConfig.Password].  The config returned is the
    deserialized one in every other field, and is the deserialized one
    outright when the flat password is empty. *)
Theorem LoadConfig_normalization
    (ioutil_ReadFile : gostring → gostring * option error)
    (yaml_Unmarshal : gostring → option Config * option error)
    (unicode_ToLower : Z → Z) (filename data : gostring)
    (c0 c : Config) (err : option error) :
  ioutil_ReadFile filename = (data, None) →
  yaml_Unmarshal data = (Some c0, None) →
  LoadConfig ioutil_ReadFile yaml_Unmarshal unicode_ToLower filename
  = Done (Some c, err) →
  same_but_nested_password c0 c
  ∧ (Password (Server c0) ≠ [] →
     PassConfig_Password (Server_PassConfig (Server c)) = Password (Server c0))
  ∧ (Password (Server c0) = [] → c = c0).
Proof.
  intros Hr Hp. rewrite (LoadConfig_parsed _ _ _ _ _ _ Hr Hp).
  intros [= H]. apply checked_Some in H as (-> & _ & _).
  split; [apply normalize_same|]. split.
  - intros Hne. rewrite normalize_nested. by destruct (Password (Server c0)).
  - intros He. unfold normalize. by rewrite He.
Qed.

Lemma LoadConfig_normalization_witness :
  sample_ReadFile (str "ircd.yaml") = (str "network: ...", None)
  ∧ sample_Unmarshal (str "network: ...") = (Some sample_config, None)
  ∧ LoadConfig sample_ReadFile sample_Unmarshal simple_ToLower (str "ircd.yaml")
    = Done (Some (set_PassConfig_Password sample_config), None)
  ∧ (same_but_nested_password sample_config
       (set_PassConfig_Password sample_config)
     ∧ (Password (Server sample_config) ≠ [] →
        PassConfig_Password
          (Server_PassConfig (Server (set_PassConfig_Password sample_config)))
        = Password (Server sample_config))
     ∧ (Password (Server sample_config) = [] →
        set_PassConfig_Password sample_config = sample_config)).
Proof.
  assert (LoadConfig sample_ReadFile sample_Unmarshal simple_ToLower
            (str "ircd.yaml")
          = Done (Some (set_PassConfig_Password sample_config), None)) as Hload
    by (vm_compute; reflexivity).
  split; [reflexivity|]. split; [reflexivity|]. split; [exact Hload|].
  exact (LoadConfig_normalization sample_ReadFile sample_Unmarshal
           simple_ToLower (str "ircd.yaml") (str "network: ...")
           sample_config (set_PassConfig_Password sample_config) None
           eq_refl eq_refl Hload).
Defined.

(** C8. An error never comes with a config: a failed read, a failed
    parse and a violated invariant each return the error and nil.  A
    config is returned exactly when the file was read, the document
    parsed and every invariant holds; the error is then nil. *)
Theorem LoadConfig_error_or_config
    (ioutil_ReadFile : gostring → gostring * option error)
    (yaml_Unmarshal : gostring → option Config * option error)
    (unicode_ToLower : Z → Z) (filename : gostring) :
  (∀ config e,
     LoadConfig ioutil_ReadFile yaml_Unmarshal unicode_ToLower filename
     = Done (config, Some e) → config = None)
  ∧ (∀ data e, ioutil_ReadFile filename = (data, Some e) →
       LoadConfig ioutil_ReadFile yaml_Unmarshal unicode_ToLower filename
       = Done (None, Some e))
  ∧ (∀ data config e,
       ioutil_ReadFile filename = (data, None) →
       yaml_Unmarshal data = (config, Some e) →
       LoadConfig ioutil_ReadFile yaml_Unmarshal unicode_ToLower filename
       = Done (None, Some e))
  ∧ (∀ data c0 e,
       ioutil_ReadFile filename = (data, None) →
       yaml_Unmarshal data = (Some c0, None) →
       first_violation unicode_ToLower c0 = Some e →
       LoadConfig ioutil_ReadFile yaml_Unmarshal unicode_ToLower filename
       = Done (None, Some e))
  ∧ (∀ c err,
       LoadConfig ioutil_ReadFile yaml_Unmarshal unicode_ToLower filename
       = Done (Some c, err)
       ↔ err = None
         ∧ ∃ data c0,
             ioutil_ReadFile filename = (data, None)
             ∧ yaml_Unmarshal data = (Some c0, None)
             ∧ Forall (λ p, p.1 = true) (invariants unicode_ToLower c0)
             ∧ c = normalize c0).
Proof.
  split; [|split; [|split; [|split]]].
  - intros config e H.
    destruct (LoadConfig_cases ioutil_ReadFile yaml_Unmarshal unicode_ToLower filename)
      as [(d & e' & _ & H') | [(d & cf & e' & _ & _ & H')
         | [(d & _ & _ & H') | (d & c0 & _ & _ & H')]]];
      rewrite H' in H; try congruence.
    injection H as H. unfold checked in H.
    destruct (first_violation unicode_ToLower (normalize c0)); congruence.
  - intros data e H. by eapply LoadConfig_read_error.
  - intros data config e H H'. by eapply LoadConfig_parse_error.
  - intros data c0 e Hr Hp Hv.
    rewrite (LoadConfig_parsed _ _ _ _ _ _ Hr Hp).
    unfold checked. by rewrite first_violation_normalize, Hv.
  - intros c err. split.
    + intros H.
      destruct (LoadConfig_cases ioutil_ReadFile yaml_Unmarshal unicode_ToLower filename)
        as [(d & e' & _ & H') | [(d & cf & e' & _ & _ & H')
           | [(d & _ & _ & H') | (d & c0 & Hr & Hp & H')]]];
        rewrite H' in H; try congruence.
      injection H as H. apply checked_Some in H as (-> & -> & Hv).
      split; [done|]. exists d, c0. repeat split; [done..|].
      rewrite first_violation_normalize in Hv. unfold first_violation in Hv.
      apply find_none. by destruct (find _ _).
    + intros (-> & data & c0 & Hr & Hp & Hall & ->).
      rewrite (LoadConfig_parsed _ _ _ _ _ _ Hr Hp).
      unfold checked. rewrite first_violation_normalize. unfold first_violation.
      apply find_none in Hall. by rewrite Hall.
Qed.

(** ** The resolvers *)

Lemma bind_outcome {A B} (f : A → run B) (m : run A) :
  (m ≫= f).2 = match m.2 with
               | Done a => (f a).2
               | Exit => Exit
               | Panic => Panic
               end.
Proof.
  destruct m as [t [a| |]]; cbn; [|done..]. by destruct (f a).
Qed.

Lemma bind_trace {A B} (f : A → run B) (m : run A) :
  (m ≫= f).1 = match m.2 with
               | Done a => m.1 ++ (f a).1
               | Exit | Panic => m.1
               end.
Proof.
  destruct m as [t [a| |]]; cbn; [|done..]. by destruct (f a).
Qed.

Lemma range_cons {K V S} (body : S → K → V → run S) k v rest s :
  range ((k, v) :: rest) body s = body s k v ≫= range rest body.
Proof. reflexivity. Qed.

Section ResolverFacts2.

Variable Certificate : Type.
Variable tls_LoadX509KeyPair : gostring → gostring → Certificate * option error.
Variable CasefoldName : gostring → gostring * option error.
Variable DecodePassword : gostring → gostring * option error.

Local Abbreviation canon := (canonical CasefoldName).
Local Abbreviation dec := (decoded DecodePassword).
Local Abbreviation ld := (loaded Certificate tls_LoadX509KeyPair).

(** One turn of the loop of [Operators]. *)
Lemma Operators_body_outcome m name opConf :
  (Operators_body CasefoldName DecodePassword m name opConf).2
  = match canon name with
    | None => Done m
    | Some folded =>
      match opConf with
      | None => Panic
      | Some _ =>
        match dec opConf with
        | Some bytes => Done (<[folded := bytes]> m)
        | None => Exit
        end
      end
    end.
Proof.
  unfold Operators_body, canonical, decoded, PasswordBytes.
  destruct (CasefoldName name) as [folded [e|]]; [reflexivity|].
  destruct opConf as [conf|]; [|reflexivity].
  by destruct (DecodePassword (PassConfig_Password conf)) as [bytes [e|]].
Qed.

(** One turn of the loop of [TLSListeners]. *)
Lemma TLSListeners_body_outcome m s conf :
  (TLSListeners_body Certificate tls_LoadX509KeyPair CasefoldName m s conf).2
  = match conf with
    | None => Panic
    | Some _ =>
      match ld conf with
      | None => Exit
      | Some config =>
        match canon s with
        | Some folded => Done (<[folded := config]> m)
        | None => Done m
        end
      end
    end.
Proof.
  unfold TLSListeners_body, TLSListenConfig_Config, canonical, loaded.
  destruct conf as [conf|]; [|reflexivity].
  destruct (tls_LoadX509KeyPair (Cert conf) (Key conf)) as [cert [e|]];
    [reflexivity|].
  by destruct (CasefoldName s) as [folded [e|]].
Qed.

(** [Operators] returns exactly when every entry whose name
    canonicalizes has a secret that decodes, and then returns the map
    of those entries. *)
Lemma Operators_outcome entries m0 m :
  (range entries (Operators_body CasefoldName DecodePassword) m0).2 = Done m
  ↔ Forall (λ entry, canon entry.1 ≠ None → dec entry.2 ≠ None) entries
    ∧ m = collect CasefoldName dec entries m0.
Proof.
  revert m0. induction entries as [|[name opConf] rest IH]; intros m0.
  - cbn. split; [intros [= <-]; by split | by intros [_ ->]].
  - rewrite range_cons, bind_outcome, Operators_body_outcome, Forall_cons.
    unfold collect. cbn [foldl fst snd]. fold (collect CasefoldName dec rest).
    destruct (canon name) as [folded|].
    + destruct opConf as [conf|].
      * destruct (dec (Some conf)) as [bytes|].
        -- rewrite IH. split; [intros [? ?]; by repeat split | by intros [[_ ?] ?]].
        -- split; [discriminate | intros [[H _] _]; by destruct H].
      * cbn [decoded]. split; [discriminate | intros [[H _] _]; by destruct H].
    + rewrite IH. split; [intros [? ?]; by repeat split | by intros [[_ ?] ?]].
Qed.

(** [TLSListeners] returns exactly when the pair of every entry loads,
    and then returns the map of the entries whose name canonicalizes. *)
Lemma TLSListeners_outcome entries m0 m :
  (range entries
     (TLSListeners_body Certificate tls_LoadX509KeyPair CasefoldName) m0).2
  = Done m
  ↔ Forall (λ entry, ld entry.2 ≠ None) entries
    ∧ m = collect CasefoldName ld entries m0.
Proof.
  revert m0. induction entries as [|[s conf] rest IH]; intros m0.
  - cbn. split; [intros [= <-]; by split | by intros [_ ->]].
  - rewrite range_cons, bind_outcome, TLSListeners_body_outcome, Forall_cons.
    unfold collect. cbn [foldl fst snd]. fold (collect CasefoldName ld rest).
    destruct conf as [conf|].
    + destruct (ld (Some conf)) as [config|].
      * destruct (canon s) as [folded|]; rewrite IH;
          (split; [intros [? ?]; by repeat split | by intros [[_ ?] ?]]).
      * split; [discriminate | intros [[H _] _]; by destruct H].
    + cbn [loaded]. split; [discriminate | intros [[H _] _]; by destruct H].
Qed.

(** Every key of a collected map is the canonical form of the name of
    an entry, and its value the one built from that entry. *)
Lemma collect_lookup {V W} (value : V → option W) entries m0 k w :
  collect CasefoldName value entries m0 !! k = Some w →
  m0 !! k = Some w
  ∨ ∃ name v, (name, v) ∈ entries ∧ canon name = Some k ∧ value v = Some w.
Proof.
  revert m0. induction entries as [|[name v] rest IH]; intros m0; [by left|].
  unfold collect. cbn [foldl fst snd]. fold (collect CasefoldName value rest).
  intros H. apply IH in H as [H | (name' & v' & Hin & Hc & Hv)].
  - destruct (canon name) as [folded|] eqn:Ec; [|by left].
    destruct (value v) as [w'|] eqn:Ev; [|by left].
    destruct (decide (folded = k)) as [->|Hne].
    + rewrite lookup_insert_eq in H. injection H as ->.
      right. exists name, v. split; [apply list_elem_of_here | done].
    + rewrite lookup_insert_ne in H by done. by left.
  - right. exists name', v'. split; [by apply list_elem_of_further | done].
Qed.

End ResolverFacts2.


Section ResolverTraces.

Variable Certificate : Type.
Variable tls_LoadX509KeyPair : gostring → gostring → Certificate * option error.
Variable CasefoldName : gostring → gostring * option error.
Variable DecodePassword : gostring → gostring * option error.

(** The events of one turn of the loop of [Operators]. *)
Lemma Operators_body_trace m name opConf :
  (Operators_body CasefoldName DecodePassword m name opConf).1
  = CallCasefoldName name ::
    match CasefoldName name with
    | (_, Some e) => [LogPrintln (str "Could not casefold oper name: " ++ e)]
    | (_, None) =>
      match opConf with
      | None => []
      | Some conf =>
        CallDecodePassword (PassConfig_Password conf) ::
        match DecodePassword (PassConfig_Password conf) with
        | (_, Some e) => [LogFatal (str "decode password error: " ++ e)]
        | (_, None) => []
        end
      end
    end.
Proof.
  unfold Operators_body, PasswordBytes.
  destruct (CasefoldName name) as [folded [e|]]; [reflexivity|].
  destruct opConf as [conf|]; [|reflexivity].
  by destruct (DecodePassword (PassConfig_Password conf)) as [bytes [e|]].
Qed.

(** The events of one turn of the loop of [TLSListeners]. *)
Lemma TLSListeners_body_trace m s conf :
  (TLSListeners_body Certificate tls_LoadX509KeyPair CasefoldName
     m s (Some conf)).1
  = CallLoadX509KeyPair (Cert conf) (Key conf) ::
    match tls_LoadX509KeyPair (Cert conf) (Key conf) with
    | (_, Some _) => [LogFatal (str "tls cert+key: invalid pair")]
    | (_, None) =>
      CallCasefoldName s ::
      match CasefoldName s with
      | (_, Some e) =>
        [LogPrintln (str "Could not casefold TLS listener: " ++ e)]
      | (_, None) => []
      end
    end.
Proof.
  unfold TLSListeners_body, TLSListenConfig_Config.
  destruct (tls_LoadX509KeyPair (Cert conf) (Key conf)) as [cert [e|]];
    [reflexivity|].
  by destruct (CasefoldName s) as [folded [e|]].
Qed.



End ResolverTraces.

(** ** Claims on the resolvers *)

(** C5. On any enumeration of the two source maps: [Operators] and
    [TLSListeners] stop only for an entry whose material cannot be
    built, never because a name fails to canonicalize; when they return,
    the map is that of the entries whose name canonicalizes, each
    processed as if the others were alone, and each of its keys is the
    canonical form of a source name. *)
Theorem resolvers_skip_failed_names
    (Certificate : Type)
    (tls_LoadX509KeyPair : gostring → gostring → Certificate * option error)
    (CasefoldName DecodePassword : gostring → gostring * option error)
    (conf : Config)
    (ops : list (gostring * option PassConfig))
    (tls : list (gostring * option TLSListenConfig)) :
  ops ≡ₚ map_to_list (Operator conf) →
  tls ≡ₚ map_to_list (Server_TLSListeners (Server conf)) →
  (∀ m, (Operators CasefoldName DecodePassword ops).2 = Done m
        ↔ Forall (λ entry, canonical CasefoldName entry.1 ≠ None →
                           decoded DecodePassword entry.2 ≠ None) ops
          ∧ m = collect CasefoldName (decoded DecodePassword) ops ∅)
  ∧ (∀ m k w, (Operators CasefoldName DecodePassword ops).2 = Done m →
       m !! k = Some w →
       ∃ raw opConf, Operator conf !! raw = Some opConf
                     ∧ canonical CasefoldName raw = Some k)
  ∧ (∀ m, (TLSListeners Certificate tls_LoadX509KeyPair CasefoldName tls).2
          = Done m
        ↔ Forall (λ entry, loaded Certificate tls_LoadX509KeyPair entry.2
                            ≠ None) tls
          ∧ m = collect CasefoldName
                  (loaded Certificate tls_LoadX509KeyPair) tls ∅)
  ∧ (∀ m k w,
       (TLSListeners Certificate tls_LoadX509KeyPair CasefoldName tls).2
       = Done m →
       m !! k = Some w →
       ∃ raw tlsConf,
         Server_TLSListeners (Server conf) !! raw = Some tlsConf
         ∧ canonical CasefoldName raw = Some k).
Proof.
  intros Hops Htls. split; [|split; [|split]].
  - intros m. apply Operators_outcome.
  - intros m k w [_ ->]%Operators_outcome Hk.
    apply collect_lookup in Hk as [Hk | (raw & v & Hin & Hc & _)].
    { by rewrite lookup_empty in Hk. }
    exists raw, v. split; [|done].
    rewrite Hops in Hin. by apply elem_of_map_to_list.
  - intros m. apply TLSListeners_outcome.
  - intros m k w [_ ->]%TLSListeners_outcome Hk.
    apply collect_lookup in Hk as [Hk | (raw & v & Hin & Hc & _)].
    { by rewrite lookup_empty in Hk. }
    exists raw, v. split; [|done].
    rewrite Htls in Hin. by apply elem_of_map_to_list.
Qed.

Lemma sample_operators_enumeration :
  [(str "dan", Some {| PassConfig_Password := str "JDJhJDA0JG" |})]
  ≡ₚ map_to_list (Operator sample_config).
Proof. cbn [Operator sample_config]. by rewrite map_to_list_singleton. Qed.

Lemma sample_listeners_enumeration :
  [(str ":6697", Some sample_listener)]
  ≡ₚ map_to_list (Server_TLSListeners (Server sample_config)).
Proof.
  cbn [Server_TLSListeners Server sample_config].
  by rewrite map_to_list_singleton.
Qed.

Lemma resolvers_skip_failed_names_witness :
  [(str "dan", Some {| PassConfig_Password := str "JDJhJDA0JG" |})]
  ≡ₚ map_to_list (Operator sample_config)
  ∧ [(str ":6697", Some sample_listener)]
    ≡ₚ map_to_list (Server_TLSListeners (Server sample_config))
  ∧ (Operators sample_CasefoldName sample_DecodePassword
       [(str "dan", Some {| PassConfig_Password := str "JDJhJDA0JG" |})]).2
    = Done {[ str "dan" := str "JDJhJDA0JG" ]}.
Proof.
  split; [exact sample_operators_enumeration|].
  split; [exact sample_listeners_enumeration|].
  apply (resolvers_skip_failed_names gostring sample_LoadX509KeyPair
           sample_CasefoldName sample_DecodePassword sample_config
           _ _ sample_operators_enumeration sample_listeners_enumeration).
  split; [|reflexivity].
  repeat constructor. discriminate.
Defined.

(** Two operators, the first with a name that does not canonicalize:
    it is logged and passed over, the second is decoded and stored. *)
Example Operators_skips_one :
  Operators sample_CasefoldName sample_DecodePassword
    [([], Some {| PassConfig_Password := str "c2VjcmV0" |});
     (str "Dan", Some {| PassConfig_Password := str "JDJhJDA0JG" |})]
  = ([CallCasefoldName [];
      LogPrintln (str "Could not casefold oper name: name is empty");
      CallCasefoldName (str "Dan");
      CallDecodePassword (str "JDJhJDA0JG")],
     Done {[ str "dan" := str "JDJhJDA0JG" ]}).
Proof. vm_compute. reflexivity. Qed.



(** C10. [Config] on a listener entry calls [tls.LoadX509KeyPair] on
    its two paths; when that fails it returns nil and the error
    "tls cert+key: invalid pair", otherwise a TLS config holding the one
    pair loaded, and a nil error.  Every value stored in the map that
    [TLSListeners] returns was built so, from an entry, and holds
    exactly one certificate. *)
Theorem TLSListenConfig_Config_one_certificate
    (Certificate : Type)
    (tls_LoadX509KeyPair : gostring → gostring → Certificate * option error) :
  (∀ conf,
     TLSListenConfig_Config Certificate tls_LoadX509KeyPair (Some conf)
     = ([CallLoadX509KeyPair (Cert conf) (Key conf)],
        Done (match tls_LoadX509KeyPair (Cert conf) (Key conf) with
              | (_, Some _) => (None, Some (str "tls cert+key: invalid pair"))
              | (cert, None) => (Some {| Certificates := [cert] |}, None)
              end)))
  ∧ (∀ CasefoldName entries m k v,
       (TLSListeners Certificate tls_LoadX509KeyPair CasefoldName entries).2
       = Done m →
       m !! k = Some v →
       ∃ s conf cert config,
         (s, Some conf) ∈ entries
         ∧ tls_LoadX509KeyPair (Cert conf) (Key conf) = (cert, None)
         ∧ v = Some config
         ∧ Certificates config = [cert]).
Proof.
  split.
  - intros conf. unfold TLSListenConfig_Config.
    by destruct (tls_LoadX509KeyPair (Cert conf) (Key conf)) as [cert [e|]].
  - intros CasefoldName entries m k v [_ ->]%TLSListeners_outcome Hk.
    apply collect_lookup in Hk as [Hk | (s & tlsConf & Hin & _ & Hv)].
    { by rewrite lookup_empty in Hk. }
    unfold loaded in Hv. destruct tlsConf as [conf|]; [|discriminate].
    destruct (tls_LoadX509KeyPair (Cert conf) (Key conf)) as [cert [e|]] eqn:El;
      [discriminate|].
    injection Hv as <-. exists s, conf, cert, {| Certificates := [cert] |}.
    by repeat split.
Qed.

Example TLSListeners_sample :
  TLSListeners gostring sample_LoadX509KeyPair sample_CasefoldName
    [(str ":6697", Some sample_listener)]
  = ([CallLoadX509KeyPair (str "tls.crt") (str "tls.key");
      CallCasefoldName (str ":6697")],
     Done {[ str ":6697" := Some {| Certificates := [str "tls.crttls.key"] |} ]}).
Proof. vm_compute. reflexivity. Qed.

(** * Further properties *)

(** ** [IsHostname], whatever the lowering of runes *)
Section HostnameMore.
Import Strings Utf8 StringsFacts Utf8Facts ExplodeFacts LowerFacts.

Variable unicode_ToLower : Z → Z.

(** The three loops of [IsHostname], one after the other. *)
Lemma IsHostname_loops name :
  IsHostname unicode_ToLower name = true
  ↔ 1 ≤ length name ≤ 253
    ∧ "."%char ∈ name
    ∧ (∀ ls, delimited "." name ls → Forall label_ok ls)
    ∧ existsb (λ char, negb (Contains allowedHostnameChars char))
              (Split (ToLower unicode_ToLower name) []) = false.
Proof.
  unfold IsHostname. rewrite <- parts_loop.
  rewrite <- (Contains_single "." name). change ["."%char] with (str ".").
  destruct (Contains name (str ".")); cbn [negb orb];
    [|split; [discriminate | intros (_ & ? & _); discriminate]].
  destruct (Nat.ltb_spec (length name) 1); cbn [orb];
    [split; [discriminate | lia]|].
  destruct (Nat.ltb_spec 253 (length name)); cbn [orb];
    [split; [discriminate | lia]|].
  destruct (existsb _ (Split name (str ".")));
    [split; [discriminate | intros (_ & _ & ? & _); discriminate]|].
  destruct (existsb _ (Split (ToLower unicode_ToLower name) []));
    [split; [discriminate | intros (_ & _ & _ & ?); discriminate]|].
  split; [intros _; repeat split; (lia || done) | done].
Qed.

Lemma lower_byte_allowed b :
  lower_byte b ∈ allowedHostnameChars ↔ hostname_byte b.
Proof.
  rewrite allowed_byte_iff, lower_byte_val.
  unfold hostname_byte, letter, allowed_rune.
  pose proof (byte_val_bounds b) as Hr.
  assert (b = "."%char ↔ byte_val b = 46%Z) as ->
    by (split; [by intros -> | intros H; by apply byte_val_inj]).
  assert (b = "-"%char ↔ byte_val b = 45%Z) as ->
    by (split; [by intros -> | intros H; by apply byte_val_inj]).
  destruct (Z.leb_spec 65 (byte_val b)), (Z.leb_spec (byte_val b) 90);
    cbn [andb]; lia.
Qed.

(** On ASCII bytes [strings.ToLower] works bytewise and the third loop
    tests each byte. *)
Lemma chars_loop_ascii name :
  Forall (λ b, (byte_val b < 0x80)%Z) name →
  existsb (λ char, negb (Contains allowedHostnameChars char))
          (Split (ToLower unicode_ToLower name) []) = false
  ↔ Forall hostname_byte name.
Proof.
  intros Hall. rewrite existsb_negb_false. cbn [Split].
  rewrite explode_allowed. unfold ToLower.
  assert (forallb (λ c, (byte_val c <? RuneSelf)%Z) name = true) as ->.
  { apply forallb_Forall. eapply Forall_impl; [exact Hall|].
    intros b Hb. apply Z.ltb_lt. exact Hb. }
  rewrite forallb_Forall.
  change (map lower_byte name) with (lower_byte <$> name).
  rewrite Forall_fmap. apply Forall_proper; [|done].
  intros b. simpl. by rewrite bool_decide_eq_true, lower_byte_allowed.
Qed.

Lemma delimited_app c s1 s2 ls1 ls2 :
  delimited c s1 ls1 → delimited c s2 ls2 →
  delimited c (s1 ++ c :: s2) (ls1 ++ ls2).
Proof.
  revert s1. induction ls1 as [|l ls1 IH]; intros s1 (Hne & Hs & Hall) H2;
    [done|].
  apply Forall_cons in Hall as [Hl Hall].
  destruct ls1 as [|l' ls1].
  - simpl in Hs. subst s1. simpl. by apply delimited_cons.
  - change (join_with c (l :: l' :: ls1))
      with (l ++ c :: join_with c (l' :: ls1)) in Hs.
    subst s1. rewrite <- app_assoc. cbn [app].
    change ((l :: l' :: ls1) ++ ls2) with (l :: ((l' :: ls1) ++ ls2)).
    apply delimited_cons; [done|]. apply IH; [|done].
    split; [done|]. by split.
Qed.

Lemma delimited_exists c s : ∃ ls, delimited c s ls.
Proof. exists (Split s [c]). by apply Split_delimited. Qed.

(** A name with an empty label is refused. *)
Lemma IsHostname_empty_label name ls :
  delimited "." name ls → [] ∈ ls → IsHostname unicode_ToLower name = false.
Proof.
  intros Hls Hin. apply not_true_iff_false. rewrite IsHostname_loops.
  intros (_ & _ & Hlabels & _). apply Hlabels in Hls.
  rewrite Forall_forall in Hls. apply Hls in Hin as [Hlen _]. simpl in Hlen. lia.
Qed.

Lemma IsHostname_leading_dot s :
  IsHostname unicode_ToLower ("."%char :: s) = false.
Proof.
  destruct (delimited_exists "." s) as [ls Hls].
  apply (IsHostname_empty_label _ ([[]] ++ ls)).
  - apply (delimited_app "." [] s [[]] ls); [|done].
    apply delimited_single, not_elem_of_nil.
  - apply elem_of_app. left. apply list_elem_of_here.
Qed.

Lemma IsHostname_trailing_dot_refused s :
  IsHostname unicode_ToLower (s ++ ["."%char]) = false.
Proof.
  destruct (delimited_exists "." s) as [ls Hls].
  apply (IsHostname_empty_label _ (ls ++ [[]])).
  - apply delimited_app; [done|]. apply delimited_single, not_elem_of_nil.
  - apply elem_of_app. right. apply list_elem_of_here.
Qed.

Lemma IsHostname_double_dot s1 s2 :
  IsHostname unicode_ToLower (s1 ++ "."%char :: "."%char :: s2) = false.
Proof.
  destruct (delimited_exists "." s1) as [ls1 H1].
  destruct (delimited_exists "." s2) as [ls2 H2].
  apply (IsHostname_empty_label _ (ls1 ++ ([[]] ++ ls2))).
  - apply delimited_app; [done|].
    apply (delimited_app "." [] s2 [[]] ls2); [|done].
    apply delimited_single, not_elem_of_nil.
  - apply elem_of_app. right. apply list_elem_of_here.
Qed.

End HostnameMore.

(** X1. On a name made of ASCII bytes, and whatever [unicode.ToLower]
    does, [IsHostname] is true exactly when the name has 1 to 253 bytes,
    contains a ".", has only labels of 1 to 63 bytes without a dash at
    either end, and every byte is one of [A-Za-z0-9.-]. *)
Theorem IsHostname_ascii_name (unicode_ToLower : Z → Z) (name : gostring) :
  Forall (λ b, (byte_val b < 0x80)%Z) name →
  IsHostname unicode_ToLower name = true
  ↔ 1 ≤ length name ≤ 253
    ∧ "."%char ∈ name
    ∧ (∀ ls, delimited "." name ls → Forall label_ok ls)
    ∧ Forall hostname_byte name.
Proof.
  intros Hall. rewrite IsHostname_loops. by rewrite chars_loop_ascii.
Qed.

Lemma IsHostname_ascii_name_witness :
  Forall (λ b, (byte_val b < 0x80)%Z) (str "Irc-1.example.COM")
  ∧ (IsHostname (λ r, r) (str "Irc-1.example.COM") = true
     ↔ 1 ≤ length (str "Irc-1.example.COM") ≤ 253
       ∧ "."%char ∈ str "Irc-1.example.COM"
       ∧ (∀ ls, delimited "." (str "Irc-1.example.COM") ls → Forall label_ok ls)
       ∧ Forall hostname_byte (str "Irc-1.example.COM")).
Proof.
  assert (Forall (λ b, (byte_val b < 0x80)%Z) (str "Irc-1.example.COM")) as H
    by (repeat constructor).
  split; [exact H|].
  exact (IsHostname_ascii_name (λ r, r) (str "Irc-1.example.COM") H).
Defined.

(** X2. A name with an empty label is refused, whatever else it holds:
    a name that starts with ".", one that ends with "." (the absolute
    form of a domain name), and one with ".." inside. *)
Theorem IsHostname_refuses_empty_labels (unicode_ToLower : Z → Z) :
  (∀ s, IsHostname unicode_ToLower ("."%char :: s) = false)
  ∧ (∀ s, IsHostname unicode_ToLower (s ++ ["."%char]) = false)
  ∧ (∀ s1 s2,
       IsHostname unicode_ToLower (s1 ++ "."%char :: "."%char :: s2) = false).
Proof.
  split; [|split].
  - apply IsHostname_leading_dot.
  - apply IsHostname_trailing_dot_refused.
  - apply IsHostname_double_dot.
Qed.

(** ** ASCII bytes among the runes of a string *)
Module AsciiRunes.
Import Strings Utf8 StringsFacts Utf8Facts ExplodeFacts LowerFacts.

(** The bytes that the decoder takes for a rune that starts outside
    ASCII all lie outside ASCII. *)
Lemma DecodeRuneInString_high s0 t :
  (0x80 ≤ byte_val s0)%Z →
  Forall (λ b, (0x80 ≤ byte_val b)%Z)
         (take (DecodeRuneInString (s0 :: t)).2 (s0 :: t)).
Proof.
  intros H0.
  assert (∀ lo hi b, (0x80 ≤ lo)%Z → between lo hi b = true → (0x80 ≤ byte_val b)%Z)
    as Hbetween by (unfold between; intros; lia).
  assert (Forall (λ b, (0x80 ≤ byte_val b)%Z) (take 1 (s0 :: t))) as Hone
    by (simpl; rewrite take_0; by constructor).
  unfold DecodeRuneInString.
  destruct (first (byte_val s0)) as [| |sz lo hi] eqn:Ef; [done..|].
  apply first_lead_lo in Ef.
  destruct (length (s0 :: t) <? sz); [done|].
  destruct t as [|s1 t1]; [done|].
  destruct (between lo hi s1) eqn:E1; [|done]. cbn [negb].
  apply (Hbetween _ _ _ Ef) in E1.
  destruct (sz <=? 2).
  { cbn [snd take]. rewrite take_0. by repeat constructor. }
  destruct t1 as [|s2 t2]; [done|].
  destruct (between locb hicb s2) eqn:E2; [|done]. cbn [negb].
  apply Hbetween in E2; [|unfold locb; lia].
  destruct (sz <=? 3).
  { cbn [snd take]. rewrite take_0. by repeat constructor. }
  destruct t2 as [|s3 t3]; [done|].
  destruct (between locb hicb s3) eqn:E3; [|done]. cbn [negb].
  apply Hbetween in E3; [|unfold locb; lia].
  cbn [snd take]. rewrite take_0. by repeat constructor.
Qed.

(** An ASCII byte is never part of a longer sequence: it is a rune of
    the string by itself. *)
Lemma ascii_byte_rune s b :
  b ∈ s → (byte_val b < 0x80)%Z → byte_val b ∈ runes s.
Proof.
  intros Hin Hb. induction s as [|s Hs IH] using decode_ind.
  { by apply elem_of_nil in Hin. }
  rewrite runes_step by done.
  rewrite <- (take_drop (DecodeRuneInString s).2 s) in Hin.
  apply elem_of_app in Hin as [Hin|Hin].
  - destruct s as [|s0 t]; [done|].
    destruct (Z.lt_ge_cases (byte_val s0) 0x80) as [H0|H0].
    + rewrite DecodeRuneInString_ascii in Hin |- * by done.
      cbn [snd fst take] in Hin |- *. rewrite take_0 in Hin.
      apply list_elem_of_singleton in Hin as ->. apply list_elem_of_here.
    + pose proof (DecodeRuneInString_high s0 t H0) as Hhigh.
      rewrite Forall_forall in Hhigh. apply Hhigh in Hin. lia.
  - apply list_elem_of_further. by apply IH.
Qed.

End AsciiRunes.

(** X3. A name that [IsHostname] accepts holds no ASCII byte other
    than [A-Za-z0-9.-]: no space, no control byte, no ":", "@", "!",
    "/" or "_".  (Of [unicode.ToLower]: on ASCII it shifts the capital
    letters only, and it yields no negative rune.) *)
Theorem IsHostname_ascii_bytes (unicode_ToLower : Z → Z) (name : gostring) :
  (∀ r, (0 ≤ r < 0x80)%Z →
        unicode_ToLower r
        = if ((65 <=? r) && (r <=? 90))%Z then (r + 32)%Z else r) →
  (∀ r, (0 ≤ r)%Z → (0 ≤ unicode_ToLower r)%Z) →
  IsHostname unicode_ToLower name = true →
  ∀ b, b ∈ name → (byte_val b < 0x80)%Z → hostname_byte b.
Proof.
  intros H1 H2 Hname b Hin Hb.
  apply (IsHostname_spec _ H1 H2) in Hname as (_ & _ & _ & Hrunes).
  rewrite Forall_forall in Hrunes.
  specialize (Hrunes _ (AsciiRunes.ascii_byte_rune _ _ Hin Hb)).
  pose proof (byte_val_bounds b) as Hr.
  rewrite H1 in Hrunes by lia.
  rewrite <- lower_byte_val in Hrunes.
  by apply lower_byte_allowed, allowed_byte_iff.
Qed.

Lemma IsHostname_ascii_bytes_witness :
  (∀ r, (0 ≤ r < 0x80)%Z →
        simple_ToLower r
        = if ((65 <=? r) && (r <=? 90))%Z then (r + 32)%Z else r)
  ∧ (∀ r, (0 ≤ r)%Z → (0 ≤ simple_ToLower r)%Z)
  ∧ IsHostname simple_ToLower (str "irc.example.com") = true
  ∧ ∀ b, b ∈ str "irc.example.com" → (byte_val b < 0x80)%Z → hostname_byte b.
Proof.
  split; [exact simple_ToLower_ASCII|].
  split; [exact simple_ToLower_nonneg|].
  split; [reflexivity|].
  exact (IsHostname_ascii_bytes simple_ToLower (str "irc.example.com")
           simple_ToLower_ASCII simple_ToLower_nonneg eq_refl).
Defined.

(** ** [LookupHostname] *)

(** X4. [LookupHostname] ends in one of two ways.  It returns, and
    then what it returns is the address it was given or a name that
    passes [IsHostname], never anything else; or it panics, and then
    the resolver had reported no error and no name.  It never calls
    [log.Fatal]. *)
Theorem LookupHostname_returns_address_or_hostname
    (unicode_ToLower : Z → Z)
    (net_LookupAddr : gostring → list gostring * option error)
    (addr : gostring) :
  match LookupHostname unicode_ToLower net_LookupAddr addr with
  | Done h => h = addr ∨ IsHostname unicode_ToLower h = true
  | Panic => net_LookupAddr addr = ([], None)
  | Exit => False
  end.
Proof.
  unfold LookupHostname.
  destruct (net_LookupAddr addr) as [names [e|]]; [by left|].
  destruct names as [|names0 rest]; [done|].
  destruct (IsHostname unicode_ToLower names0) eqn:E; cbn [negb];
    [by right | by left].
Qed.

(** X5. [LookupHostname] panics in one case only: the resolver reports
    no error and no name, and [names[0]] is read all the same. *)
Theorem LookupHostname_panics_iff
    (unicode_ToLower : Z → Z)
    (net_LookupAddr : gostring → list gostring * option error)
    (addr : gostring) :
  LookupHostname unicode_ToLower net_LookupAddr addr = Panic
  ↔ net_LookupAddr addr = ([], None).
Proof.
  unfold LookupHostname.
  destruct (net_LookupAddr addr) as [names [e|]]; [split; discriminate|].
  destruct names as [|names0 rest]; [done|].
  destruct (IsHostname unicode_ToLower names0); split; discriminate.
Qed.

(** X6. A first name in absolute form, with its final ".", never
    passes: [LookupHostname] falls back to the address. *)
Theorem LookupHostname_absolute_name
    (unicode_ToLower : Z → Z)
    (net_LookupAddr : gostring → list gostring * option error)
    (addr name : gostring) (rest : list gostring) (err : option error) :
  net_LookupAddr addr = ((name ++ ["."%char]) :: rest, err) →
  LookupHostname unicode_ToLower net_LookupAddr addr = Done addr.
Proof.
  intros H. unfold LookupHostname. rewrite H.
  destruct err as [e|]; [done|].
  by rewrite IsHostname_trailing_dot_refused.
Qed.

Lemma LookupHostname_absolute_name_witness :
  sample_resolver_absolute (str "192.0.2.7")
  = ((str "irc.example.com" ++ ["."%char]) :: [], None)
  ∧ LookupHostname simple_ToLower sample_resolver_absolute (str "192.0.2.7")
    = Done (str "192.0.2.7").
Proof.
  split; [reflexivity|].
  exact (LookupHostname_absolute_name simple_ToLower sample_resolver_absolute
           (str "192.0.2.7") (str "irc.example.com") [] None eq_refl).
Defined.


(** ** [IPString] *)
Module NetFacts.
Import Net.

Lemma IndexByte_None s c : IndexByte s c = None ↔ c ∉ s.
Proof.
  induction s as [|x t IH]; cbn [IndexByte].
  - split; [intros _; apply not_elem_of_nil | done].
  - rewrite not_elem_of_cons. case_bool_decide as Hx.
    + split; [discriminate | intros [? _]; congruence].
    + destruct (IndexByte t c); simpl.
      * split; [discriminate|]. intros [_ H]. apply IH in H. discriminate.
      * split; [|done]. intros _. split; [congruence | by apply IH].
Qed.

Lemma IndexByte_app l r c :
  c ∉ l → IndexByte (l ++ c :: r) c = Some (length l).
Proof.
  induction l as [|x l IH]; intros Hc; cbn [app IndexByte length].
  - by rewrite bool_decide_eq_true_2.
  - apply not_elem_of_cons in Hc as [Hx Hc].
    rewrite bool_decide_eq_false_2 by congruence. by rewrite IH.
Qed.

Lemma last_None s c : last s c = None ↔ c ∉ s.
Proof.
  induction s as [|x t IH]; cbn [last].
  - split; [intros _; apply not_elem_of_nil | done].
  - rewrite not_elem_of_cons. destruct (last t c) as [i|].
    + split; [discriminate|]. intros [_ H]. apply IH in H. discriminate.
    + case_bool_decide as Hx.
      * split; [discriminate | intros [? _]; congruence].
      * split; [|done]. intros _. split; [congruence | by apply IH].
Qed.

Lemma last_app l r c : c ∉ r → last (l ++ c :: r) c = Some (length l).
Proof.
  intros Hr. induction l as [|x l IH]; cbn [app last length].
  - apply last_None in Hr. rewrite Hr. by rewrite bool_decide_eq_true_2.
  - by rewrite IH.
Qed.

(** [host:port] with a plain host and a plain port. *)
Lemma SplitHostPort_plain host port :
  ":"%char ∉ host → "["%char ∉ host → "]"%char ∉ host →
  ":"%char ∉ port → "["%char ∉ port → "]"%char ∉ port →
  SplitHostPort (host ++ ":"%char :: port) = (host, port, None).
Proof.
  intros Hc Ho Hcl Hpc Hpo Hpcl. unfold SplitHostPort.
  rewrite last_app by done.
  assert ((host ++ ":"%char :: port) !! 0 ≠ Some "["%char) as Hfirst.
  { destruct host as [|x host]; [discriminate|]. simpl. intros [= ->].
    apply Ho. apply list_elem_of_here. }
  rewrite (bool_decide_eq_false_2 _ Hfirst).
  rewrite take_app_length.
  apply IndexByte_None in Hc. rewrite Hc. rewrite !drop_0.
  assert ("["%char ∉ host ++ ":"%char :: port) as H1.
  { rewrite elem_of_app, elem_of_cons. intros [?|[?|?]]; done. }
  assert ("]"%char ∉ host ++ ":"%char :: port) as H2.
  { rewrite elem_of_app, elem_of_cons. intros [?|[?|?]]; done. }
  apply IndexByte_None in H1, H2. rewrite H1, H2.
  do 2 f_equal.
  change (host ++ ":"%char :: port) with (host ++ [":"%char] ++ port).
  rewrite app_assoc. apply drop_app_length'. rewrite length_app. simpl. lia.
Qed.

(** [[host]:port], the form of an IPv6 address with its port. *)
Lemma SplitHostPort_bracketed host port :
  "["%char ∉ host → "]"%char ∉ host →
  ":"%char ∉ port → "["%char ∉ port → "]"%char ∉ port →
  SplitHostPort ("["%char :: host ++ "]"%char :: ":"%char :: port)
  = (host, port, None).
Proof.
  intros Ho Hcl Hpc Hpo Hpcl.
  remember ("["%char :: host ++ "]"%char :: ":"%char :: port) as hp eqn:Ehp.
  assert (hp = ("["%char :: host ++ ["]"%char]) ++ ":"%char :: port) as Hhp.
  { rewrite Ehp. cbn [app]. by rewrite <- app_assoc. }
  assert (last hp ":" = Some (length host + 2)) as Hlast.
  { rewrite Hhp, last_app by done. cbn [length]. rewrite length_app. simpl.
    f_equal. lia. }
  assert (hp !! 0 = Some "["%char) as Hfirst by (by rewrite Ehp).
  assert (IndexByte hp "]" = Some (length host + 1)) as Hend.
  { rewrite Ehp. change ("["%char :: host ++ "]"%char :: ":"%char :: port)
      with (("["%char :: host) ++ "]"%char :: ":"%char :: port).
    rewrite IndexByte_app.
    - simpl. f_equal. lia.
    - rewrite not_elem_of_cons. by split. }
  assert (length hp = length host + 3 + length port) as Hlen.
  { rewrite Ehp. cbn [length]. rewrite length_app. simpl. lia. }
  assert (drop 1 hp = host ++ "]"%char :: ":"%char :: port) as Hd1
    by (by rewrite Ehp).
  assert (drop (length host + 1 + 1) hp = ":"%char :: port) as Hd2.
  { rewrite Hhp. apply drop_app_length'.
    cbn [length]. rewrite length_app. simpl. lia. }
  assert (drop (length host + 2 + 1) hp = port) as Hd3.
  { replace (length host + 2 + 1) with ((length host + 1 + 1) + 1) by lia.
    by rewrite <- drop_drop, Hd2. }
  assert (take (length host + 1 - 1) (drop 1 hp) = host) as Ht.
  { rewrite Hd1. replace (length host + 1 - 1) with (length host) by lia.
    apply take_app_length. }
  assert (IndexByte (drop 1 hp) "[" = None) as H1.
  { rewrite Hd1. apply IndexByte_None.
    rewrite elem_of_app, !elem_of_cons. intros [?|[?|[?|?]]]; done. }
  assert (IndexByte (drop (length host + 1 + 1) hp) "]" = None) as H2.
  { rewrite Hd2. apply IndexByte_None.
    rewrite elem_of_cons. intros [?|?]; done. }
  unfold SplitHostPort. rewrite Hlast, (bool_decide_eq_true_2 _ Hfirst), Hend.
  destruct (Nat.eqb_spec (length host + 1 + 1) (length hp)) as [E|_]; [lia|].
  destruct (Nat.eqb_spec (length host + 1 + 1) (length host + 2)) as [_|E]; [|lia].
  cbv zeta. cbn match. by rewrite H1, H2, Ht, Hd3.
Qed.

Lemma SplitHostPort_no_colon s :
  ":"%char ∉ s → (SplitHostPort s).2 ≠ None.
Proof.
  intros H. unfold SplitHostPort. apply last_None in H. by rewrite H.
Qed.

End NetFacts.

(** X7. [IPString] strips the port of an address: of [host:port] it
    keeps [host] (which may be empty), of [[host]:port] it keeps [host]
    without the brackets, and an address without ":" is returned as it
    is. *)
Theorem IPString_strips_port (network : gostring) :
  (∀ host port,
     ":"%char ∉ host → "["%char ∉ host → "]"%char ∉ host →
     ":"%char ∉ port → "["%char ∉ port → "]"%char ∉ port →
     IPString {| Net.Network := network;
                 Net.String := host ++ ":"%char :: port |} = host)
  ∧ (∀ host port,
       "["%char ∉ host → "]"%char ∉ host →
       ":"%char ∉ port → "["%char ∉ port → "]"%char ∉ port →
       IPString {| Net.Network := network;
                   Net.String := "["%char :: host ++ "]"%char :: ":"%char
                                 :: port |} = host)
  ∧ (∀ s, ":"%char ∉ s →
          IPString {| Net.Network := network; Net.String := s |} = s).
Proof.
  unfold IPString. cbn [Net.String]. split; [|split].
  - intros host port ? ? ? ? ? ?. by rewrite NetFacts.SplitHostPort_plain.
  - intros host port ? ? ? ? ?. by rewrite NetFacts.SplitHostPort_bracketed.
  - intros s Hc. pose proof (NetFacts.SplitHostPort_no_colon s Hc) as H.
    destruct (Net.SplitHostPort s) as [[h p] [e|]]; done.
Qed.

Example IPString_ipv6 :
  IPString {| Net.Network := str "tcp";
              Net.String := str "[2001:db8::1]:6667" |}
  = str "2001:db8::1".
Proof. vm_compute. reflexivity. Qed.

Example IPString_listen_address :
  IPString {| Net.Network := str "tcp"; Net.String := str ":6667" |} = [].
Proof. vm_compute. reflexivity. Qed.

(** ** [LoadConfig]: outcomes *)

(** X8. [LoadConfig] ends in one of three ways: it returns a config
    and a nil error, or nil and an error, or it panics; it never
    returns nil with a nil error, a config with an error, or ends the
    process. *)
Theorem LoadConfig_config_or_error
    (ioutil_ReadFile : gostring → gostring * option error)
    (yaml_Unmarshal : gostring → option Config * option error)
    (unicode_ToLower : Z → Z) (filename : gostring) :
  match LoadConfig ioutil_ReadFile yaml_Unmarshal unicode_ToLower filename with
  | Done (Some _, None) | Done (None, Some _) | Panic => True
  | Done (Some _, Some _) | Done (None, None) | Exit => False
  end.
Proof.
  destruct (LoadConfig_cases ioutil_ReadFile yaml_Unmarshal unicode_ToLower filename)
    as [(d & e & _ & ->) | [(d & cf & e & _ & _ & ->)
       | [(d & _ & _ & ->) | (d & c0 & _ & _ & ->)]]]; [done..|].
  unfold checked. by destruct (first_violation _ _).
Qed.

(** X9. [LoadConfig] panics in one case only: the file is read, the
    parser reports no error and leaves the config pointer nil, and the
    loader reads [config.Server] all the same. *)
Theorem LoadConfig_panics_iff
    (ioutil_ReadFile : gostring → gostring * option error)
    (yaml_Unmarshal : gostring → option Config * option error)
    (unicode_ToLower : Z → Z) (filename : gostring) :
  LoadConfig ioutil_ReadFile yaml_Unmarshal unicode_ToLower filename = Panic
  ↔ ∃ data, ioutil_ReadFile filename = (data, None)
            ∧ yaml_Unmarshal data = (None, None).
Proof.
  destruct (LoadConfig_cases ioutil_ReadFile yaml_Unmarshal unicode_ToLower filename)
    as [(d & e & Hr & ->) | [(d & cf & e & Hr & Hp & ->)
       | [(d & Hr & Hp & ->) | (d & c0 & Hr & Hp & ->)]]].
  - split; [discriminate|]. intros (d' & Hr' & _). congruence.
  - split; [discriminate|]. intros (d' & Hr' & Hp'). congruence.
  - split; [|done]. intros _. by exists d.
  - split; [discriminate|]. intros (d' & Hr' & Hp'). congruence.
Qed.

Lemma invariants_hold lower c :
  first_violation lower c = None →
  Network_Name c ≠ []
  ∧ Name (Server c) ≠ []
  ∧ IsHostname lower (Name (Server c)) = true
  ∧ Datastore_Path c ≠ []
  ∧ Listen (Server c) ≠ []
  ∧ (1 ≤ NickLen (Limits c))%Z
  ∧ (2 ≤ ChannelLen (Limits c))%Z
  ∧ (1 ≤ AwayLen (Limits c))%Z
  ∧ (1 ≤ TopicLen (Limits c))%Z.
Proof.
  unfold first_violation, invariants. cbn [find fst].
  destruct (Network_Name c); [discriminate|]. cbn [is_empty negb].
  destruct (Name (Server c)) as [|n0 name] eqn:En; [discriminate|].
  cbn [is_empty negb].
  destruct (IsHostname lower (n0 :: name)) eqn:Eh; [|discriminate]. cbn [negb].
  destruct (Datastore_Path c); [discriminate|]. cbn [is_empty negb].
  destruct (Listen (Server c)); [discriminate|]. cbn [length Nat.eqb negb].
  destruct (limits_in_bounds c) eqn:El; [|discriminate]. intros _.
  unfold limits_in_bounds in El.
  repeat split; try done; lia.
Qed.

(** X10. A config that [LoadConfig] returns satisfies every invariant:
    its network name, server name, datastore path and listening
    addresses are not empty, its server name passes [IsHostname] (so it
    holds a "." and at most 253 bytes), and NickLen >= 1,
    ChannelLen >= 2, AwayLen >= 1, TopicLen >= 1. *)
Theorem LoadConfig_returns_valid_config
    (ioutil_ReadFile : gostring → gostring * option error)
    (yaml_Unmarshal : gostring → option Config * option error)
    (unicode_ToLower : Z → Z) (filename : gostring)
    (c : Config) (err : option error) :
  LoadConfig ioutil_ReadFile yaml_Unmarshal unicode_ToLower filename
  = Done (Some c, err) →
  Network_Name c ≠ []
  ∧ Name (Server c) ≠ []
  ∧ IsHostname unicode_ToLower (Name (Server c)) = true
  ∧ "."%char ∈ Name (Server c)
  ∧ length (Name (Server c)) ≤ 253
  ∧ Datastore_Path c ≠ []
  ∧ Listen (Server c) ≠ []
  ∧ (1 ≤ NickLen (Limits c))%Z
  ∧ (2 ≤ ChannelLen (Limits c))%Z
  ∧ (1 ≤ AwayLen (Limits c))%Z
  ∧ (1 ≤ TopicLen (Limits c))%Z.
Proof.
  intros H.
  destruct (LoadConfig_cases ioutil_ReadFile yaml_Unmarshal unicode_ToLower filename)
    as [(d & e & _ & H') | [(d & cf & e & _ & _ & H')
       | [(d & _ & _ & H') | (d & c0 & _ & _ & H')]]];
    rewrite H' in H; try congruence.
  injection H as H. apply checked_Some in H as (-> & _ & Hv).
  apply invariants_hold in Hv as (H1 & H2 & H3 & H4 & H5 & H6 & H7 & H8 & H9).
  pose proof (proj1 (IsHostname_loops _ _) H3) as (Hlen & Hdot & _).
  repeat split; try done; lia.
Qed.

Lemma LoadConfig_returns_valid_config_witness :
  LoadConfig sample_ReadFile sample_Unmarshal simple_ToLower (str "ircd.yaml")
  = Done (Some (set_PassConfig_Password sample_config), None)
  ∧ (Network_Name (set_PassConfig_Password sample_config) ≠ []
     ∧ Name (Server (set_PassConfig_Password sample_config)) ≠ []
     ∧ IsHostname simple_ToLower
         (Name (Server (set_PassConfig_Password sample_config))) = true
     ∧ "."%char ∈ Name (Server (set_PassConfig_Password sample_config))
     ∧ length (Name (Server (set_PassConfig_Password sample_config))) ≤ 253
     ∧ Datastore_Path (set_PassConfig_Password sample_config) ≠ []
     ∧ Listen (Server (set_PassConfig_Password sample_config)) ≠ []
     ∧ (1 ≤ NickLen (Limits (set_PassConfig_Password sample_config)))%Z
     ∧ (2 ≤ ChannelLen (Limits (set_PassConfig_Password sample_config)))%Z
     ∧ (1 ≤ AwayLen (Limits (set_PassConfig_Password sample_config)))%Z
     ∧ (1 ≤ TopicLen (Limits (set_PassConfig_Password sample_config)))%Z).
Proof.
  assert (LoadConfig sample_ReadFile sample_Unmarshal simple_ToLower
            (str "ircd.yaml")
          = Done (Some (set_PassConfig_Password sample_config), None)) as Hload
    by (vm_compute; reflexivity).
  split; [exact Hload|].
  exact (LoadConfig_returns_valid_config sample_ReadFile sample_Unmarshal
           simple_ToLower (str "ircd.yaml") _ None Hload).
Defined.

Lemma first_violation_same_checked_fields lower c c' :
  same_checked_fields c c' →
  first_violation lower c = first_violation lower c'.
Proof.
  intros (H1 & H2 & H3 & H4 & H5 & H6 & H7 & H8).
  unfold first_violation, invariants, limits_in_bounds.
  rewrite H2, H5, H6, H7, H8.
  assert (∀ (A : Type) (l l' : list A), (l = [] ↔ l' = []) →
            (length l =? 0) = (length l' =? 0)) as Hlen.
  { intros A [|x l] [|x' l'] [Ha Hb]; try done.
    - by specialize (Ha eq_refl).
    - by specialize (Hb eq_refl). }
  assert (∀ l l' : gostring, (l = [] ↔ l' = []) → is_empty l = is_empty l')
    as Hemp.
  { intros [|x l] [|x' l'] [Ha Hb]; try done.
    - by specialize (Ha eq_refl).
    - by specialize (Hb eq_refl). }
  rewrite (Hemp _ _ H1), (Hemp _ _ H3), (Hlen _ _ _ H4). done.
Qed.

(** X11. The verdict of [LoadConfig] rests on the checked fields
    alone: two documents whose aggregates agree on them get the same
    error or both load, whatever they hold elsewhere (operators, TLS
    listeners, passwords, KickLen, WhowasEntries, ...).  None of these
    is looked at when loading. *)
Theorem LoadConfig_only_checked_fields
    (ioutil_ReadFile : gostring → gostring * option error)
    (yaml_Unmarshal yaml_Unmarshal' : gostring → option Config * option error)
    (unicode_ToLower : Z → Z) (filename data : gostring) (c c' : Config) :
  ioutil_ReadFile filename = (data, None) →
  yaml_Unmarshal data = (Some c, None) →
  yaml_Unmarshal' data = (Some c', None) →
  same_checked_fields c c' →
  returned_error
    (LoadConfig ioutil_ReadFile yaml_Unmarshal unicode_ToLower filename)
  = returned_error
      (LoadConfig ioutil_ReadFile yaml_Unmarshal' unicode_ToLower filename).
Proof.
  intros Hr Hp Hp' Hsame.
  rewrite (LoadConfig_parsed _ _ _ _ _ _ Hr Hp).
  rewrite (LoadConfig_parsed _ _ _ _ _ _ Hr Hp').
  unfold checked. rewrite !first_violation_normalize.
  rewrite (first_violation_same_checked_fields _ _ _ Hsame).
  by destruct (first_violation unicode_ToLower c').
Qed.

Lemma LoadConfig_only_checked_fields_witness :
  sample_ReadFile (str "ircd.yaml") = (str "network: ...", None)
  ∧ sample_Unmarshal (str "network: ...") = (Some sample_config, None)
  ∧ sample_Unmarshal_bare (str "network: ...") = (Some sample_config_bare, None)
  ∧ same_checked_fields sample_config sample_config_bare
  ∧ returned_error
      (LoadConfig sample_ReadFile sample_Unmarshal simple_ToLower
         (str "ircd.yaml"))
    = returned_error
        (LoadConfig sample_ReadFile sample_Unmarshal_bare simple_ToLower
           (str "ircd.yaml")).
Proof.
  assert (same_checked_fields sample_config sample_config_bare) as Hsame.
  { unfold same_checked_fields. cbn. repeat split; done. }
  split; [reflexivity|]. split; [reflexivity|]. split; [reflexivity|].
  split; [exact Hsame|].
  exact (LoadConfig_only_checked_fields sample_ReadFile sample_Unmarshal
           sample_Unmarshal_bare simple_ToLower (str "ircd.yaml")
           (str "network: ...") sample_config sample_config_bare
           eq_refl eq_refl eq_refl Hsame).
Defined.

(** ** The resolvers: whole runs *)

Lemma range_app {K V S} (body : S → K → V → run S) l1 l2 s :
  range (l1 ++ l2) body s = range l1 body s ≫= range l2 body.
Proof.
  revert s. induction l1 as [|[k v] l1 IH]; intros s.
  - cbn. by destruct (range l2 body s).
  - cbn [app]. rewrite !range_cons.
    destruct (body s k v) as [t [s'| |]]; [|done..].
    cbn. rewrite IH. destruct (range l1 body s') as [t1 [s1| |]]; [|done..].
    cbn. destruct (range l2 body s1) as [t2 o2]. by rewrite app_assoc.
Qed.


(** The events of a run that returns are those of its turns, one
    entry after the other. *)
Lemma range_trace_concat {K V S} (body : S → K → V → run S)
    (tr : K → V → list Event) entries s s' :
  (∀ s k v, (body s k v).1 = tr k v) →
  (range entries body s).2 = Done s' →
  (range entries body s).1 = concat (map (λ e, tr e.1 e.2) entries).
Proof.
  intros Htr. revert s. induction entries as [|[k v] rest IH]; intros s; [done|].
  rewrite range_cons, bind_outcome, bind_trace.
  destruct ((body s k v).2) as [s1| |] eqn:E; [|discriminate..].
  intros H. cbn [map concat fst snd]. by rewrite Htr, (IH _ H).
Qed.

Lemma omap_concat_map {A B C} (f : B → option C) (tr : A → list B)
    (g : A → option C) (l : list A) :
  Forall (λ a, omap f (tr a) = option_list (g a)) l →
  omap f (concat (map tr l)) = omap g l.
Proof.
  induction 1 as [|a l H _ IH]; [done|].
  cbn [map concat]. rewrite omap_app, H, IH. cbn. by destruct (g a).
Qed.

Lemma collect_snoc {V W} casefold (value : V → option W) entries e m0 :
  collect casefold value (entries ++ [e]) m0
  = match canonical casefold e.1, value e.2 with
    | Some name, Some w => <[name := w]> (collect casefold value entries m0)
    | _, _ => collect casefold value entries m0
    end.
Proof. unfold collect. by rewrite foldl_app. Qed.

(** When no two entries write the same key, a collected map holds for
    each entry what was built from it. *)
Lemma collect_lookup_unique {V W} casefold (value : V → option W)
    entries name v k w :
  (∀ e1 e2 k', e1 ∈ entries → e2 ∈ entries →
     canonical casefold e1.1 = Some k' → canonical casefold e2.1 = Some k' →
     e1 = e2) →
  (name, v) ∈ entries →
  canonical casefold name = Some k → value v = Some w →
  collect casefold value entries ∅ !! k = Some w.
Proof.
  induction entries as [|e entries IH] using rev_ind; intros Huniq Hin Hc Hv.
  { by apply elem_of_nil in Hin. }
  rewrite collect_snoc.
  assert (canonical casefold e.1 = Some k → e = (name, v)) as Hsame.
  { intros He. apply (Huniq e (name, v) k); [| |done..].
    - apply elem_of_app. right. apply list_elem_of_here.
    - done. }
  assert (canonical casefold e.1 ≠ Some k →
          collect casefold value entries ∅ !! k = Some w) as Hrec.
  { intros He. apply IH; [| |done..].
    - intros e1 e2 k' H1 H2. apply Huniq; apply elem_of_app; by left.
    - apply elem_of_app in Hin as [Hin|Hin]; [done|].
      apply list_elem_of_singleton in Hin. subst e. by destruct He. }
  destruct (canonical casefold e.1) as [k'|] eqn:Ek;
    [|apply Hrec; discriminate].
  destruct (decide (k' = k)) as [->|Hk].
  - rewrite (Hsame eq_refl). cbn [snd]. rewrite Hv. apply lookup_insert_eq.
  - destruct (value e.2).
    + rewrite lookup_insert_ne by done. apply Hrec. congruence.
    + apply Hrec. congruence.
Qed.

(** Without collisions the collected map does not depend on the order
    of the entries. *)
Lemma collect_Permutation {V W} casefold (value : V → option W) l l' :
  l ≡ₚ l' →
  (∀ e1 e2 k', e1 ∈ l → e2 ∈ l →
     canonical casefold e1.1 = Some k' → canonical casefold e2.1 = Some k' →
     e1 = e2) →
  collect casefold value l ∅ = collect casefold value l' ∅.
Proof.
  intros Hperm Huniq.
  assert (∀ e1 e2 k', e1 ∈ l' → e2 ∈ l' →
     canonical casefold e1.1 = Some k' → canonical casefold e2.1 = Some k' →
     e1 = e2) as Huniq'.
  { intros e1 e2 k' H1 H2. rewrite <- Hperm in H1, H2. by apply Huniq. }
  apply map_eq. intros k. apply option_eq. intros w. split.
  - intros [H|(name & v & Hin & Hc & Hv)]%collect_lookup.
    { by rewrite lookup_empty in H. }
    rewrite Hperm in Hin. by eapply collect_lookup_unique.
  - intros [H|(name & v & Hin & Hc & Hv)]%collect_lookup.
    { by rewrite lookup_empty in H. }
    rewrite <- Hperm in Hin. by eapply collect_lookup_unique.
Qed.

(** The entries of a map whose keys do not collide. *)
Lemma map_entries_unique {V}
    (casefold : gostring → gostring * option error)
    (M : gmap gostring V) (l : list (gostring * V)) :
  l ≡ₚ map_to_list M →
  no_collision casefold (elements (dom M)) →
  ∀ e1 e2 k', e1 ∈ l → e2 ∈ l →
    canonical casefold e1.1 = Some k' → canonical casefold e2.1 = Some k' →
    e1 = e2.
Proof.
  intros Hl Hnc [n1 v1] [n2 v2] k' H1 H2 Hc1 Hc2.
  rewrite Hl in H1, H2. apply elem_of_map_to_list in H1, H2. cbn in Hc1, Hc2.
  assert (n1 = n2) as ->.
  { apply (Hnc n1 n2 k'); [| |done..];
      apply elem_of_elements, elem_of_dom; eauto. }
  congruence.
Qed.

(** X12. When no two names of a source map have the same canonical
    form, the map that a resolver returns does not depend on the order
    in which Go visits the source map: if one enumeration makes
    [Operators] (or [TLSListeners]) return a map, every other makes it
    return the same map. *)
Theorem resolvers_order_independent
    (Certificate : Type)
    (tls_LoadX509KeyPair : gostring → gostring → Certificate * option error)
    (CasefoldName DecodePassword : gostring → gostring * option error)
    (conf : Config)
    (ops ops' : list (gostring * option PassConfig))
    (tls tls' : list (gostring * option TLSListenConfig)) :
  ops ≡ₚ map_to_list (Operator conf) →
  ops' ≡ₚ map_to_list (Operator conf) →
  tls ≡ₚ map_to_list (Server_TLSListeners (Server conf)) →
  tls' ≡ₚ map_to_list (Server_TLSListeners (Server conf)) →
  (no_collision CasefoldName (elements (dom (Operator conf))) →
   ∀ m, (Operators CasefoldName DecodePassword ops).2 = Done m →
        (Operators CasefoldName DecodePassword ops').2 = Done m)
  ∧ (no_collision CasefoldName
       (elements (dom (Server_TLSListeners (Server conf)))) →
     ∀ m, (TLSListeners Certificate tls_LoadX509KeyPair CasefoldName tls).2
          = Done m →
          (TLSListeners Certificate tls_LoadX509KeyPair CasefoldName tls').2
          = Done m).
Proof.
  intros Hops Hops' Htls Htls'. split.
  - intros Hnc m [Hall ->]%Operators_outcome. apply Operators_outcome.
    assert (ops ≡ₚ ops') as Hperm by (by rewrite Hops, Hops').
    split; [by rewrite <- Hperm|].
    apply collect_Permutation; [done|]. by eapply map_entries_unique.
  - intros Hnc m [Hall ->]%TLSListeners_outcome. apply TLSListeners_outcome.
    assert (tls ≡ₚ tls') as Hperm by (by rewrite Htls, Htls').
    split; [by rewrite <- Hperm|].
    apply collect_Permutation; [done|]. by eapply map_entries_unique.
Qed.


(** The two orders of two operators whose names collide give two
    different maps. *)
Example Operators_collision_order :
  (Operators sample_CasefoldName sample_DecodePassword
     sample_operators_colliding).2
  = Done {[ str "dan" := str "bmV3" ]}
  ∧ (Operators sample_CasefoldName sample_DecodePassword
       (reverse sample_operators_colliding)).2
    = Done {[ str "dan" := str "b2xk" ]}.
Proof. split; vm_compute; reflexivity. Qed.

Lemma collect_dom {V W} casefold (value : V → option W)
    (entries : list (gostring * V)) :
  Forall (λ entry, canonical casefold entry.1 ≠ None → value entry.2 ≠ None)
         entries →
  dom (collect casefold value entries ∅)
  = list_to_set (omap (λ entry, canonical casefold entry.1) entries).
Proof.
  induction entries as [|e entries IH] using rev_ind; intros Hall.
  { unfold collect. cbn. apply dom_empty_L. }
  apply Forall_app in Hall as [Hall He]. rewrite Forall_singleton in He.
  rewrite collect_snoc, omap_app, list_to_set_app_L. cbn.
  destruct (canonical casefold e.1) as [k|] eqn:Ek.
  - destruct (value e.2) as [w|]; [|by destruct He].
    rewrite dom_insert_L, IH by done. cbn.
    by rewrite union_empty_r_L, (comm_L (∪)).
  - rewrite IH by done. cbn. by rewrite union_empty_r_L.
Qed.

(** X14. The keys of the map that a resolver returns are exactly the
    canonical forms of the names that canonicalize: none is added and
    none is lost. *)
Theorem resolvers_keys
    (Certificate : Type)
    (tls_LoadX509KeyPair : gostring → gostring → Certificate * option error)
    (CasefoldName DecodePassword : gostring → gostring * option error) :
  (∀ entries m,
     (Operators CasefoldName DecodePassword entries).2 = Done m →
     dom m = list_to_set
               (omap (λ entry, canonical CasefoldName entry.1) entries))
  ∧ (∀ entries m,
       (TLSListeners Certificate tls_LoadX509KeyPair CasefoldName entries).2
       = Done m →
       dom m = list_to_set
                 (omap (λ entry, canonical CasefoldName entry.1) entries)).
Proof.
  split.
  - intros entries m [Hall ->]%Operators_outcome. by apply collect_dom.
  - intros entries m [Hall ->]%TLSListeners_outcome. apply collect_dom.
    eapply Forall_impl; [exact Hall|]. by intros e H _.
Qed.

Section ResolverRuns.

Variable Certificate : Type.
Variable tls_LoadX509KeyPair : gostring → gostring → Certificate * option error.
Variable CasefoldName : gostring → gostring * option error.
Variable DecodePassword : gostring → gostring * option error.

(** The events of one turn of each loop, as a function of the entry. *)
Lemma Operators_run entries m :
  (Operators CasefoldName DecodePassword entries).2 = Done m →
  (Operators CasefoldName DecodePassword entries).1
  = concat (map (λ e, (Operators_body CasefoldName DecodePassword ∅ e.1 e.2).1)
                entries).
Proof.
  unfold Operators.
  apply (range_trace_concat _
           (λ k v, (Operators_body CasefoldName DecodePassword ∅ k v).1)).
  intros s k v. by rewrite !Operators_body_trace.
Qed.

Lemma TLSListeners_body_trace_any m m' s conf :
  (TLSListeners_body Certificate tls_LoadX509KeyPair CasefoldName m s conf).1
  = (TLSListeners_body Certificate tls_LoadX509KeyPair CasefoldName m' s conf).1.
Proof.
  destruct conf as [conf|]; [|done]. by rewrite !TLSListeners_body_trace.
Qed.

Lemma TLSListeners_run entries m :
  (TLSListeners Certificate tls_LoadX509KeyPair CasefoldName entries).2
  = Done m →
  (TLSListeners Certificate tls_LoadX509KeyPair CasefoldName entries).1
  = concat (map (λ e, (TLSListeners_body Certificate tls_LoadX509KeyPair
                         CasefoldName ∅ e.1 e.2).1) entries).
Proof.
  unfold TLSListeners.
  apply (range_trace_concat _
           (λ k v, (TLSListeners_body Certificate tls_LoadX509KeyPair
                      CasefoldName ∅ k v).1)).
  intros s k v. apply TLSListeners_body_trace_any.
Qed.

End ResolverRuns.

(** X15. A run that returns has printed one line for each entry whose
    name does not canonicalize, in the order of the visit and with the
    error of [CasefoldName], and nothing else:
    "Could not casefold oper name: ..." for an operator and
    "Could not casefold TLS listener: ..." for a listener. *)
Theorem resolvers_log_skipped_entries
    (Certificate : Type)
    (tls_LoadX509KeyPair : gostring → gostring → Certificate * option error)
    (CasefoldName DecodePassword : gostring → gostring * option error) :
  (∀ entries m,
     (Operators CasefoldName DecodePassword entries).2 = Done m →
     printed (Operators CasefoldName DecodePassword entries).1
     = omap (λ entry, match CasefoldName entry.1 with
                      | (_, Some e) =>
                        Some (str "Could not casefold oper name: " ++ e)
                      | (_, None) => None
                      end) entries)
  ∧ (∀ entries m,
       (TLSListeners Certificate tls_LoadX509KeyPair CasefoldName entries).2
       = Done m →
       printed (TLSListeners Certificate tls_LoadX509KeyPair CasefoldName
                  entries).1
       = omap (λ entry, match CasefoldName entry.1 with
                        | (_, Some e) =>
                          Some (str "Could not casefold TLS listener: " ++ e)
                        | (_, None) => None
                        end) entries).
Proof.
  split.
  - intros entries m H. rewrite (Operators_run _ _ _ _ H).
    unfold printed. apply omap_concat_map. apply Forall_forall.
    intros [name opConf] _.
    rewrite Operators_body_trace. cbn [fst snd].
    destruct (CasefoldName name) as [folded [e|]]; [done|].
    destruct opConf as [conf|]; [|done].
    by destruct (DecodePassword (PassConfig_Password conf)) as [bytes [e|]].
  - intros entries m H. rewrite (TLSListeners_run _ _ _ _ _ H).
    apply TLSListeners_outcome in H as [Hall _].
    unfold printed. apply omap_concat_map.
    eapply Forall_impl; [exact Hall|]. intros [s tlsConf] Hl.
    cbn [fst snd] in Hl |- *. destruct tlsConf as [conf|]; [|by destruct Hl].
    rewrite TLSListeners_body_trace. unfold loaded in Hl.
    destruct (tls_LoadX509KeyPair (Cert conf) (Key conf)) as [cert [e|]];
      [by destruct Hl|].
    by destruct (CasefoldName s) as [folded [e|]].
Qed.

(** X16. The collaborators called by a run that returns: [Operators]
    asks to decode the secrets of the entries whose name canonicalizes,
    each once and in the order of the visit, and no other;
    [TLSListeners] asks to load the pair of every entry, each once and
    in the order of the visit, also of the entries it then passes
    over. *)
Theorem resolvers_calls
    (Certificate : Type)
    (tls_LoadX509KeyPair : gostring → gostring → Certificate * option error)
    (CasefoldName DecodePassword : gostring → gostring * option error) :
  (∀ entries m,
     (Operators CasefoldName DecodePassword entries).2 = Done m →
     decode_calls (Operators CasefoldName DecodePassword entries).1
     = omap (λ entry, match canonical CasefoldName entry.1, entry.2 with
                      | Some _, Some conf => Some (PassConfig_Password conf)
                      | _, _ => None
                      end) entries)
  ∧ (∀ entries m,
       (TLSListeners Certificate tls_LoadX509KeyPair CasefoldName entries).2
       = Done m →
       load_calls (TLSListeners Certificate tls_LoadX509KeyPair CasefoldName
                     entries).1
       = omap (λ entry, (λ conf, (Cert conf, Key conf)) <$> entry.2) entries
       ∧ length (load_calls (TLSListeners Certificate tls_LoadX509KeyPair
                               CasefoldName entries).1)
         = length entries).
Proof.
  split.
  - intros entries m H. rewrite (Operators_run _ _ _ _ H).
    unfold decode_calls. apply omap_concat_map. apply Forall_forall.
    intros [name opConf] _.
    rewrite Operators_body_trace. unfold canonical. cbn [fst snd].
    destruct (CasefoldName name) as [folded [e|]]; [done|].
    destruct opConf as [conf|]; [|done].
    by destruct (DecodePassword (PassConfig_Password conf)) as [bytes [e|]].
  - intros entries m H.
    assert (load_calls (TLSListeners Certificate tls_LoadX509KeyPair
                          CasefoldName entries).1
            = omap (λ entry, (λ conf, (Cert conf, Key conf)) <$> entry.2)
                   entries) as Hcalls.
    { rewrite (TLSListeners_run _ _ _ _ _ H).
      unfold load_calls. apply omap_concat_map. apply Forall_forall.
      intros [s tlsConf] _. cbn [fst snd].
      destruct tlsConf as [conf|]; [|done].
      rewrite TLSListeners_body_trace.
      destruct (tls_LoadX509KeyPair (Cert conf) (Key conf)) as [cert [e|]];
        [done|].
      by destruct (CasefoldName s) as [folded [e|]]. }
    split; [exact Hcalls|]. rewrite Hcalls.
    apply TLSListeners_outcome in H as [Hall _]. clear Hcalls.
    induction Hall as [|[s tlsConf] rest Hl _ IH]; [done|].
    destruct tlsConf as [conf|]; [|by destruct Hl]. cbn. by rewrite IH.
Qed.

(** A run that has come through [pre] and meets an entry on which the
    body does not return ends there, with the events of that entry
    after those of [pre]. *)
Lemma range_fails_at {K V S} (body : S → K → V → run S) pre k v rest s m :
  (range pre body s).2 = Done m →
  (∀ m', (body m k v).2 ≠ Done m') →
  range (pre ++ (k, v) :: rest) body s
  = ((range pre body s).1 ++ (body m k v).1, (body m k v).2).
Proof.
  intros Hpre Hbody. rewrite range_app.
  assert (range pre body s ≫= range ((k, v) :: rest) body
          = ((range pre body s).1 ++ (range ((k, v) :: rest) body m).1,
             (range ((k, v) :: rest) body m).2)) as ->.
  { destruct (range pre body s) as [t0 o0]. cbn [snd] in Hpre. subst o0.
    cbn [fst]. change (?x ≫= ?f) with (bind f x). cbn [bind].
    by destruct (range ((k, v) :: rest) body m). }
  rewrite range_cons.
  destruct (body m k v) as [t [m'| |]]; [by destruct (Hbody m') | done..].
Qed.

(** X17. The first entry that cannot be built ends the run, and what
    follows it plays no part.  After entries that were all processed:
    an operator whose name canonicalizes and whose secret does not
    decode leaves the events of the earlier entries, the two calls and
    the line "decode password error: ..." of [log.Fatal], and the
    process exits; a nil operator entry whose name canonicalizes
    panics after the call of [CasefoldName]; a listener whose pair
    does not load leaves the call and the line
    "tls cert+key: invalid pair", and the process exits, without its
    name having been canonicalized; a nil listener entry panics at
    once. *)
Theorem resolvers_stop_at_first_failure
    (Certificate : Type)
    (tls_LoadX509KeyPair : gostring → gostring → Certificate * option error)
    (CasefoldName DecodePassword : gostring → gostring * option error) :
  (∀ pre name conf rest m folded bytes e,
     (Operators CasefoldName DecodePassword pre).2 = Done m →
     CasefoldName name = (folded, None) →
     DecodePassword (PassConfig_Password conf) = (bytes, Some e) →
     Operators CasefoldName DecodePassword (pre ++ (name, Some conf) :: rest)
     = ((Operators CasefoldName DecodePassword pre).1
        ++ [CallCasefoldName name;
            CallDecodePassword (PassConfig_Password conf);
            LogFatal (str "decode password error: " ++ e)],
        Exit))
  ∧ (∀ pre name rest m folded,
       (Operators CasefoldName DecodePassword pre).2 = Done m →
       CasefoldName name = (folded, None) →
       Operators CasefoldName DecodePassword (pre ++ (name, None) :: rest)
       = ((Operators CasefoldName DecodePassword pre).1
          ++ [CallCasefoldName name],
          Panic))
  ∧ (∀ pre s conf rest m cert e,
       (TLSListeners Certificate tls_LoadX509KeyPair CasefoldName pre).2
       = Done m →
       tls_LoadX509KeyPair (Cert conf) (Key conf) = (cert, Some e) →
       TLSListeners Certificate tls_LoadX509KeyPair CasefoldName
         (pre ++ (s, Some conf) :: rest)
       = ((TLSListeners Certificate tls_LoadX509KeyPair CasefoldName pre).1
          ++ [CallLoadX509KeyPair (Cert conf) (Key conf);
              LogFatal (str "tls cert+key: invalid pair")],
          Exit))
  ∧ (∀ pre s rest m,
       (TLSListeners Certificate tls_LoadX509KeyPair CasefoldName pre).2
       = Done m →
       TLSListeners Certificate tls_LoadX509KeyPair CasefoldName
         (pre ++ (s, None) :: rest)
       = ((TLSListeners Certificate tls_LoadX509KeyPair CasefoldName pre).1,
          Panic)).
Proof.
  split; [|split; [|split]].
  - intros pre name conf rest m folded bytes e Hpre Hc Hd.
    assert (Operators_body CasefoldName DecodePassword m name (Some conf)
            = ([CallCasefoldName name;
                CallDecodePassword (PassConfig_Password conf);
                LogFatal (str "decode password error: " ++ e)], Exit)) as Hbody.
    { unfold Operators_body, PasswordBytes. by rewrite Hc, Hd. }
    unfold Operators in *. rewrite (range_fails_at _ _ _ _ _ _ m Hpre);
      rewrite Hbody; [done|]. discriminate.
  - intros pre name rest m folded Hpre Hc.
    assert (Operators_body CasefoldName DecodePassword m name None
            = ([CallCasefoldName name], Panic)) as Hbody.
    { unfold Operators_body, PasswordBytes. by rewrite Hc. }
    unfold Operators in *. rewrite (range_fails_at _ _ _ _ _ _ m Hpre);
      rewrite Hbody; [done|]. discriminate.
  - intros pre s conf rest m cert e Hpre Hl.
    assert (TLSListeners_body Certificate tls_LoadX509KeyPair CasefoldName
              m s (Some conf)
            = ([CallLoadX509KeyPair (Cert conf) (Key conf);
                LogFatal (str "tls cert+key: invalid pair")], Exit)) as Hbody.
    { unfold TLSListeners_body, TLSListenConfig_Config. by rewrite Hl. }
    unfold TLSListeners in *. rewrite (range_fails_at _ _ _ _ _ _ m Hpre);
      rewrite Hbody; [done|]. discriminate.
  - intros pre s rest m Hpre.
    assert (TLSListeners_body Certificate tls_LoadX509KeyPair CasefoldName
              m s None = ([], Panic)) as Hbody by done.
    unfold TLSListeners in *. rewrite (range_fails_at _ _ _ _ _ _ m Hpre);
      rewrite Hbody; [by rewrite app_nil_r|]. discriminate.
Qed.

(** An operator whose secret does not decode ends the run; the
    operator after it is not looked at. *)
Example Operators_stops :
  Operators sample_CasefoldName sample_DecodePassword_failing
    sample_operators_colliding
  = ([CallCasefoldName (str "Dan");
      CallDecodePassword (str "b2xk");
      LogFatal (str "decode password error: illegal base64 data at input byte 0")],
     Exit).
Proof. vm_compute. reflexivity. Qed.

(** X18. After a load, [PasswordBytes] on the nested
    [Server.PassConfig] of the config returned asks to decode the flat
    [Server.Password] of the document when that is not empty (this is
    what the copy made by [LoadConfig] is for), and the nested password
    of the document otherwise; it returns the bytes when the decoding
    succeeds and ends the process when it does not. *)
Theorem LoadConfig_then_PasswordBytes
    (ioutil_ReadFile : gostring → gostring * option error)
    (yaml_Unmarshal : gostring → option Config * option error)
    (unicode_ToLower : Z → Z)
    (DecodePassword : gostring → gostring * option error)
    (filename data : gostring) (c0 c : Config) (err : option error) :
  ioutil_ReadFile filename = (data, None) →
  yaml_Unmarshal data = (Some c0, None) →
  LoadConfig ioutil_ReadFile yaml_Unmarshal unicode_ToLower filename
  = Done (Some c, err) →
  let secret := match Password (Server c0) with
                | [] => PassConfig_Password (Server_PassConfig (Server c0))
                | _ :: _ => Password (Server c0)
                end in
  PasswordBytes DecodePassword (Some (Server_PassConfig (Server c)))
  = match DecodePassword secret with
    | (bytes, None) => ([CallDecodePassword secret], Done bytes)
    | (_, Some e) =>
      ([CallDecodePassword secret;
        LogFatal (str "decode password error: " ++ e)], Exit)
    end.
Proof.
  intros Hr Hp. rewrite (LoadConfig_parsed _ _ _ _ _ _ Hr Hp).
  intros [= H]. apply checked_Some in H as (-> & _ & _).
  intros secret. unfold PasswordBytes. rewrite normalize_nested. fold secret.
  by destruct (DecodePassword secret) as [bytes [e|]].
Qed.

Lemma LoadConfig_then_PasswordBytes_witness :
  sample_ReadFile (str "ircd.yaml") = (str "network: ...", None)
  ∧ sample_Unmarshal (str "network: ...") = (Some sample_config, None)
  ∧ LoadConfig sample_ReadFile sample_Unmarshal simple_ToLower (str "ircd.yaml")
    = Done (Some (set_PassConfig_Password sample_config), None)
  ∧ PasswordBytes sample_DecodePassword
      (Some (Server_PassConfig (Server (set_PassConfig_Password sample_config))))
    = ([CallDecodePassword (str "JDJhJDA0JG")], Done (str "JDJhJDA0JG")).
Proof.
  assert (LoadConfig sample_ReadFile sample_Unmarshal simple_ToLower
            (str "ircd.yaml")
          = Done (Some (set_PassConfig_Password sample_config), None)) as Hload
    by (vm_compute; reflexivity).
  split; [reflexivity|]. split; [reflexivity|]. split; [exact Hload|].
  exact (LoadConfig_then_PasswordBytes sample_ReadFile sample_Unmarshal
           simple_ToLower sample_DecodePassword (str "ircd.yaml")
           (str "network: ...") sample_config
           (set_PassConfig_Password sample_config) None
           eq_refl eq_refl Hload).
Defined.

(** The two sample operators, whose names do not collide. *)
Lemma sample_operators_two_enumeration :
  [(str "dan", Some {| PassConfig_Password := str "b2xk" |});
   (str "Ada", Some {| PassConfig_Password := str "bmV3" |})]
  ≡ₚ map_to_list (Operator sample_config_two_operators).
Proof.
  cbn [Operator sample_config_two_operators]. unfold sample_operators_two.
  rewrite map_to_list_insert by (by vm_compute).
  by rewrite map_to_list_singleton.
Qed.

Lemma sample_operators_two_reversed :
  [(str "Ada", Some {| PassConfig_Password := str "bmV3" |});
   (str "dan", Some {| PassConfig_Password := str "b2xk" |})]
  ≡ₚ map_to_list (Operator sample_config_two_operators).
Proof. rewrite <- sample_operators_two_enumeration. apply Permutation_swap. Qed.

Lemma sample_operators_two_no_collision :
  no_collision sample_CasefoldName
    (elements (dom (Operator sample_config_two_operators))).
Proof.
  assert (∀ n, n ∈ elements (dom (Operator sample_config_two_operators)) →
               n = str "dan" ∨ n = str "Ada") as Hin.
  { intros n. rewrite elem_of_elements.
    cbn [Operator sample_config_two_operators]. unfold sample_operators_two.
    rewrite dom_insert_L, dom_singleton_L, elem_of_union, !elem_of_singleton.
    tauto. }
  intros n1 n2 k [-> | ->]%Hin [-> | ->]%Hin; vm_compute; congruence.
Qed.

Lemma resolvers_order_independent_witness :
  [(str "dan", Some {| PassConfig_Password := str "b2xk" |});
   (str "Ada", Some {| PassConfig_Password := str "bmV3" |})]
  ≡ₚ map_to_list (Operator sample_config_two_operators)
  ∧ [(str "Ada", Some {| PassConfig_Password := str "bmV3" |});
     (str "dan", Some {| PassConfig_Password := str "b2xk" |})]
    ≡ₚ map_to_list (Operator sample_config_two_operators)
  ∧ [(str ":6697", Some sample_listener)]
    ≡ₚ map_to_list (Server_TLSListeners (Server sample_config_two_operators))
  ∧ no_collision sample_CasefoldName
      (elements (dom (Operator sample_config_two_operators)))
  ∧ (Operators sample_CasefoldName sample_DecodePassword
       [(str "dan", Some {| PassConfig_Password := str "b2xk" |});
        (str "Ada", Some {| PassConfig_Password := str "bmV3" |})]).2
    = Done {[ str "dan" := str "b2xk"; str "ada" := str "bmV3" ]}
  ∧ (Operators sample_CasefoldName sample_DecodePassword
       [(str "Ada", Some {| PassConfig_Password := str "bmV3" |});
        (str "dan", Some {| PassConfig_Password := str "b2xk" |})]).2
    = Done {[ str "dan" := str "b2xk"; str "ada" := str "bmV3" ]}.
Proof.
  assert ((Operators sample_CasefoldName sample_DecodePassword
       [(str "dan", Some {| PassConfig_Password := str "b2xk" |});
        (str "Ada", Some {| PassConfig_Password := str "bmV3" |})]).2
    = Done {[ str "dan" := str "b2xk"; str "ada" := str "bmV3" ]}) as Hrun
    by (vm_compute; reflexivity).
  split; [exact sample_operators_two_enumeration|].
  split; [exact sample_operators_two_reversed|].
  split; [exact sample_listeners_enumeration|].
  split; [exact sample_operators_two_no_collision|].
  split; [exact Hrun|].
  exact (proj1 (resolvers_order_independent gostring sample_LoadX509KeyPair
                  sample_CasefoldName sample_DecodePassword
                  sample_config_two_operators _ _ _ _
                  sample_operators_two_enumeration
                  sample_operators_two_reversed
                  sample_listeners_enumeration sample_listeners_enumeration)
           sample_operators_two_no_collision _ Hrun).
Defined.


(** ** The empty document *)

(** C2. The claim fails on the code for the document that holds
    nothing: the file is read, the parser reports no error and leaves
    [config] nil, and [LoadConfig] panics on [config.Server] before any
    check is run.  No error is returned, and so not "Network name
    missing", the earliest of the invariants that such a document
    breaks. *)
Theorem LoadConfig_empty_document_panics :
  sample_ReadFile_empty (str "ircd.yaml") = ([], None)
  ∧ sample_Unmarshal_empty [] = (None, None)
  ∧ LoadConfig sample_ReadFile_empty sample_Unmarshal_empty simple_ToLower
      (str "ircd.yaml")
    = Panic
  ∧ LoadConfig sample_ReadFile_empty sample_Unmarshal_empty simple_ToLower
      (str "ircd.yaml")
    ≠ Done (None, Some (str "Network name missing")).
Proof. repeat split; try reflexivity. discriminate. Qed.
